(** * gocoreutils: the [ls] and [whoami] commands

    A shallow embedding of [cmd/ls/main.go] and [cmd/whoami/main.go].

    Go values are modelled as follows.
    - [int] and [uint] are 64-bit; they are carried as [Z] and every
      conversion or addition that can wrap is written out.
    - A [string] is a [string] of bytes; comparison is bytewise, as in Go.
    - An interface or pointer that may be [nil] is an [option].
    - A call returning [(value, error)] is a pair of options: the source
      tests the two components independently, and so does the model.
    - A run either returns, panics (nil dereference, integer division by
      zero), or exhausts the recursion budget of the model. *)

From Stdlib Require Import ZArith List String Ascii Bool Lia.
From Stdlib Require Import DecimalString Permutation Sorted OrderedTypeEx.
Import ListNotations.

Local Open Scope string_scope.
Local Open Scope Z_scope.

Set Warnings "-register-all".

(** ** Machine integers *)

Module GoInt.

Definition uintMod : Z := 2 ^ 64.

(** Conversion to [uint]: reduction modulo 2^64. *)
Definition toUint (z : Z) : Z := z mod uintMod.

(** Conversion to [int]: two's complement on 64 bits. *)
Definition toInt (z : Z) : Z :=
  let m := z mod uintMod in
  if m <? 2 ^ 63 then m else m - uintMod.

Definition isUint (z : Z) : Prop := 0 <= z < uintMod.

(** [strconv.Itoa] and the [%d] verb. *)
Definition Itoa (z : Z) : string := NilZero.string_of_int (Z.to_int z).

End GoInt.

(** ** Results of a run *)

Inductive panic : Type :=
| NilDereference
| DivideByZero.

Inductive outcome (A : Type) : Type :=
| Returns (a : A)
| Panics (p : panic)
| OutOfFuel.

Arguments Returns {A} a.
Arguments Panics {A} p.
Arguments OutOfFuel {A}.

(** ** Library data: [fs.FileInfo], [syscall.Stat_t], [user.User],
    [user.Group], [error] *)

Record Stat_t : Type := mkStat {
  Nlink : Z;   (* uint64 *)
  Blocks : Z;  (* int64 *)
  Uid : Z;     (* uint32 *)
  Gid : Z      (* uint32 *)
}.

Record Time : Type := mkTime {
  Year : Z;
  stamp : Z
}.

(** The method table of a non-nil [fs.FileInfo]. *)
Record FileInfo : Type := mkFileInfo {
  Name : string;
  Size : Z;
  Mode : Z;
  ModTime : Time;
  IsDir : bool;
  Sys : option Stat_t
}.

Record User : Type := mkUser {
  Username : string;
  UserUid : string
}.

Record Group : Type := mkGroup {
  GroupName : string;
  GroupGid : string
}.

Inductive error : Type :=
| PathError (op path : string) (err : string)
| PlainError (msg : string).

(** ** [entryInfo] *)

Inductive entryInfo : Type := mkEntryInfo {
  path : string;
  fileInfo : option FileInfo;   (* the embedded fs.FileInfo *)
  directRequest : bool;
  numLinks : Z;
  numBlocks : Z;
  uID : Z;
  gID : Z;
  user : option User;
  group : option Group;
  subEntries : list entryInfo
}.

Definition setDirectRequest (e : entryInfo) (b : bool) : entryInfo :=
  mkEntryInfo (path e) (fileInfo e) b (numLinks e) (numBlocks e)
              (uID e) (gID e) (user e) (group e) (subEntries e).

Definition setStat (e : entryInfo) (links blocks uid gid : Z) : entryInfo :=
  mkEntryInfo (path e) (fileInfo e) (directRequest e) links blocks
              uid gid (user e) (group e) (subEntries e).

Definition setUser (e : entryInfo) (u : option User) : entryInfo :=
  mkEntryInfo (path e) (fileInfo e) (directRequest e) (numLinks e) (numBlocks e)
              (uID e) (gID e) u (group e) (subEntries e).

Definition setGroup (e : entryInfo) (g : option Group) : entryInfo :=
  mkEntryInfo (path e) (fileInfo e) (directRequest e) (numLinks e) (numBlocks e)
              (uID e) (gID e) (user e) g (subEntries e).

Definition setSubEntries (e : entryInfo) (l : list entryInfo) : entryInfo :=
  mkEntryInfo (path e) (fileInfo e) (directRequest e) (numLinks e) (numBlocks e)
              (uID e) (gID e) (user e) (group e) l.

Definition newEntryInfo (p : string) (fsInfo : option FileInfo) : entryInfo :=
  {| path := p;
     fileInfo := fsInfo;
     directRequest := false;
     numLinks := 0;
     numBlocks := 0;
     uID := -1;
     gID := -1;
     user := None;
     group := None;
     subEntries := [] |}.

(** A promoted method call [e.M()] on the embedded interface: it panics when
    the interface is nil. *)
Definition promoted {A : Type} (e : entryInfo) (m : FileInfo -> A) : outcome A :=
  match fileInfo e with
  | Some fi => Returns (m fi)
  | None => Panics NilDereference
  end.

Definition Contains (s substr : string) : bool :=
  match String.index 0 substr s with
  | Some _ => true
  | None => false
  end.

Definition SafeName (e : entryInfo) : string :=
  let name := path e in
  if Contains name " " then "'" ++ name ++ "'" else name.

(** Integer division of [uint]s; a zero divisor panics. *)
Definition udiv (a b : Z) : outcome Z :=
  if b =? 0 then Panics DivideByZero else Returns (a / b).

(** The [for ... range e.subEntries] loop of [blocksForSize]. *)
Definition sumBlocks (entries : list entryInfo) : Z :=
  fold_left (fun total entry => GoInt.toUint (total + numBlocks entry)) entries 0.

Definition blocksForSize (e : entryInfo) (blockSize : Z) : outcome Z :=
  let factor := blockSize / 512 in
  match promoted e IsDir with
  | Returns true => udiv (sumBlocks (subEntries e)) factor
  | Returns false => udiv (numBlocks e) factor
  | Panics p => Panics p
  | OutOfFuel => OutOfFuel
  end.

(** ** The operating system, as seen by one run

    The file system and the account database do not change during a run:
    each call is a function of its argument. *)

Record DirEntry : Type := mkDirEntry {
  deName : string;
  deInfo : option FileInfo * option error   (* result of [Info()] *)
}.

Record World : Type := mkWorld {
  osStat : string -> option FileInfo * option error;
  osReadDir : string -> list DirEntry * option error;
  LookupId : string -> option User * option error;
  LookupGroupId : string -> option Group * option error;
  (** [tabwriter.Writer.Flush] on the buffered text. *)
  Flush : string -> option error;
  (** [time.Now().Year()] *)
  nowYear : Z;
  (** [fs.FileMode.String] and [time.Time.Format] *)
  modeString : Z -> string;
  timeString : Time -> string -> string;
  (** [strings.ToLower], which lower-cases every Unicode letter *)
  ToLower : string -> string
}.

(** The calls a run makes, in order. *)
Inductive event : Type :=
| EvStat (p : string)
| EvReadDir (p : string)
| EvInfo (name : string)
| EvLookupId (id : string)
| EvLookupGroupId (id : string).

(** ** Computations that act on the process state and may panic *)

Record state : Type := mkState {
  calls : list event;   (* the calls made so far *)
  written : string;     (* text written to the tabwriter *)
  stderr : string       (* text written to os.Stderr *)
}.

Definition initial : state := mkState [] "" "".

Definition M (A : Type) : Type := state -> outcome (A * state).

Definition ret {A : Type} (a : A) : M A := fun st => Returns (a, st).

Definition bind {A B : Type} (m : M A) (k : A -> M B) : M B :=
  fun st =>
    match m st with
    | Returns (a, st') => k a st'
    | Panics p => Panics p
    | OutOfFuel => OutOfFuel
    end.

Definition emit (ev : event) : M unit :=
  fun st => Returns (tt, mkState (calls st ++ [ev])%list (written st) (stderr st)).

(** [fmt.Fprint(writer, s)] on the tabwriter. *)
Definition write (s : string) : M unit :=
  fun st => Returns (tt, mkState (calls st) (written st ++ s) (stderr st)).

(** [fmt.Fprint(os.Stderr, s)]. *)
Definition ewrite (s : string) : M unit :=
  fun st => Returns (tt, mkState (calls st) (written st) (stderr st ++ s)).

Definition lift {A : Type} (o : outcome A) : M A :=
  fun st =>
    match o with
    | Returns a => Returns (a, st)
    | Panics p => Panics p
    | OutOfFuel => OutOfFuel
    end.

Definition diverge {A : Type} : M A := fun _ => OutOfFuel.

Declare Scope go_scope.
Delimit Scope go_scope with go.
Notation "x <- m ;; k" := (bind m (fun x => k))
  (at level 61, m at next level, right associativity) : go_scope.
Notation "' p <- m ;; k" := (bind m (fun p => k))
  (at level 61, p pattern, m at next level, right associativity) : go_scope.
Notation "m ;;; k" := (bind m (fun _ => k))
  (at level 61, right associativity) : go_scope.
Local Open Scope go_scope.

(** [errs = append(errs, err)] under [if err != nil]. *)
Definition appendErr (errs : list error) (err : option error) : list error :=
  match err with
  | Some x => (errs ++ [x])%list
  | None => errs
  end.

(** ** [fetchEntryInfo] *)

Section Fetch.

Variable w : World.

(** Lines 135-140: the platform fields, when [Sys()] is a [*syscall.Stat_t]. *)
Definition fetchStat (e : entryInfo) : M entryInfo :=
  sys <- lift (promoted e Sys) ;;
  match sys with
  | Some sysStat =>
      ret (setStat e (GoInt.toInt (Nlink sysStat)) (GoInt.toUint (Blocks sysStat))
                   (GoInt.toInt (Uid sysStat)) (GoInt.toInt (Gid sysStat)))
  | None => ret e
  end.

(** Lines 142-149. *)
Definition fetchUser (e : entryInfo) (errs : list error) : M (entryInfo * list error) :=
  if uID e =? -1 then ret (e, errs)
  else
    emit (EvLookupId (GoInt.Itoa (uID e))) ;;;
    let '(userInfo, err) := LookupId w (GoInt.Itoa (uID e)) in
    ret (setUser e userInfo, appendErr errs err).

(** Lines 151-158. *)
Definition fetchGroup (e : entryInfo) (errs : list error) : M (entryInfo * list error) :=
  if gID e =? -1 then ret (e, errs)
  else
    emit (EvLookupGroupId (GoInt.Itoa (gID e))) ;;;
    let '(groupInfo, err) := LookupGroupId w (GoInt.Itoa (gID e)) in
    ret (setGroup e groupInfo, appendErr errs err).

(** Lines 167-174: one child entry per directory entry. *)
Fixpoint fetchChildren (dirEntries : list DirEntry) (errs : list error)
  : M (list entryInfo * list error) :=
  match dirEntries with
  | [] => ret ([], errs)
  | dirEntry :: rest =>
      emit (EvInfo (deName dirEntry)) ;;;
      let '(dirInfo, err) := deInfo dirEntry in
      '(subs, errs') <- fetchChildren rest (appendErr errs err) ;;
      ret (newEntryInfo (deName dirEntry) dirInfo :: subs, errs')
  end.

(** Lines 160-177; [self] is the recursive call of line 176. *)
Definition fetchDir (self : list entryInfo -> bool -> M (list entryInfo * list error))
           (recurse : bool) (e : entryInfo) (errs : list error)
  : M (entryInfo * list error) :=
  isDir <- lift (promoted e IsDir) ;;
  if isDir then
    emit (EvReadDir (path e)) ;;;
    let '(dirEntries, err) := osReadDir w (path e) in
    '(subs, errs1) <- fetchChildren dirEntries (appendErr errs err) ;;
    '(subs', returned) <- self subs recurse ;;
    ret (setSubEntries e subs', (errs1 ++ returned)%list)
  else ret (e, errs).

(** The body of the [for i := range entries] loop. *)
Definition fetchEntry (self : list entryInfo -> bool -> M (list entryInfo * list error))
           (recurse : bool) (e : entryInfo) (errs : list error)
  : M (entryInfo * list error) :=
  e1 <- fetchStat e ;;
  '(e2, errs2) <- fetchUser e1 errs ;;
  '(e3, errs3) <- fetchGroup e2 errs2 ;;
  fetchDir self recurse e3 errs3.

Fixpoint fetchLoop (self : list entryInfo -> bool -> M (list entryInfo * list error))
         (recurse : bool) (entries : list entryInfo) (errs : list error)
  : M (list entryInfo * list error) :=
  match entries with
  | [] => ret ([], errs)
  | e :: rest =>
      '(e', errs1) <- fetchEntry self recurse e errs ;;
      '(rest', errs2) <- fetchLoop self recurse rest errs1 ;;
      ret (e' :: rest', errs2)
  end.

(** [fetchEntryInfo] updates [entries] in place and returns a slice of
    errors.  The first component of the result is the slice after the call;
    the second is the returned value.  [fuel] bounds the depth of the
    recursion, which the source does not bound. *)
Fixpoint fetchEntryInfo (fuel : nat) (entries : list entryInfo) (recurse : bool)
  : M (list entryInfo * list error) :=
  match fuel with
  | O => diverge
  | S fuel' =>
      '(entries', errs) <- fetchLoop (fetchEntryInfo fuel') recurse entries [] ;;
      (* return nil *)
      ret (entries', [])
  end.

(** The value of the local [errs] when the loop of the outermost call ends. *)
Definition fetchAccumulated (fuel : nat) (entries : list entryInfo) (recurse : bool)
  : M (list entryInfo * list error) :=
  match fuel with
  | O => diverge
  | S fuel' => fetchLoop (fetchEntryInfo fuel') recurse entries []
  end.

End Fetch.

(** ** Strings *)

Definition tab : string := String (ascii_of_nat 9) EmptyString.
Definition newline : string := String (ascii_of_nat 10) EmptyString.

Definition timeFormat : string := "Jan" ++ tab ++ "_2" ++ tab ++ "15:04".
Definition dateFormat : string := "Jan" ++ tab ++ "_2" ++ tab ++ " 2006".

(** What [strings.ToLower] does to a string of ASCII bytes: the letters A-Z
    are mapped to a-z and every other byte is kept.  It stands for
    [strings.ToLower] in the sample runs only, whose names are all ASCII. *)
Definition lowerByte (c : ascii) : ascii :=
  let n := nat_of_ascii c in
  if ((65 <=? n) && (n <=? 90))%nat then ascii_of_nat (n + 32) else c.

Fixpoint asciiToLower (s : string) : string :=
  match s with
  | EmptyString => EmptyString
  | String c s' => String (lowerByte c) (asciiToLower s')
  end.

(** [strings.Join] *)
Definition Join (elems : list string) (sep : string) : string := String.concat sep elems.

(** The [less] closures handed to [sort.Slice], and the order of
    [sort.Strings]. *)
Definition lessLower (w : World) (a b : string) : bool :=
  String.ltb (ToLower w a) (ToLower w b).
Definition lessLowerPath (w : World) (a b : entryInfo) : bool :=
  lessLower w (path a) (path b).
Definition lessString (a b : string) : bool := String.ltb a b.

(** ** Printing *)

Record Config : Type := mkConfig {
  blockSize : Z;          (* uint *)
  formatLongList : bool
}.

(** [errors.As(err, &pathErr)] and the two renderings. *)
Definition formatError (err : error) : string :=
  match err with
  | PathError _ p e => "cannot access '" ++ p ++ "': " ++ e
  | PlainError msg => msg
  end.

Fixpoint printErrors (errs : list error) : M unit :=
  match errs with
  | [] => ret tt
  | err :: rest => ewrite (formatError err ++ newline) ;;; printErrors rest
  end.

(** The owner and group columns of [printLongEntryInfo]. *)
Definition userName (entry : entryInfo) : string :=
  match user entry with
  | Some u => Username u
  | None => "Unknown"
  end.

Definition groupName (entry : entryInfo) : string :=
  match group entry with
  | Some g => GroupName g
  | None => "Unknown"
  end.

Section Print.

Variable w : World.
Variable config : Config.

(** [sort.Slice]; [sort.Strings] is [sortSlice lessString]. *)
Variable sortSlice : forall A : Type, (A -> A -> bool) -> list A -> list A.

Definition longLine (entry : entryInfo) : outcome string :=
  match promoted entry Mode, promoted entry Size, promoted entry ModTime with
  | Returns mode, Returns size, Returns modTime =>
      let line := modeString w mode in
      let line := line ++ tab ++ GoInt.Itoa (numLinks entry) in
      let line := line ++ tab ++ userName entry in
      let line := line ++ tab ++ groupName entry in
      let line := line ++ tab ++ GoInt.Itoa size in
      let modTimeFormat :=
        if Year modTime <? nowYear w then dateFormat else timeFormat in
      let line := line ++ tab ++ timeString w modTime modTimeFormat in
      let line := line ++ tab ++ SafeName entry in
      Returns line
  | Panics p, _, _ => Panics p
  | _, Panics p, _ => Panics p
  | _, _, Panics p => Panics p
  | _, _, _ => OutOfFuel
  end.

Definition printLongEntryInfo (entry : entryInfo) : M unit :=
  line <- lift (longLine entry) ;;
  write (line ++ newline).

Fixpoint printLongEntries (entries : list entryInfo) : M unit :=
  match entries with
  | [] => ret tt
  | entry :: rest => printLongEntryInfo entry ;;; printLongEntries rest
  end.

(** [entry.directRequest && !entry.IsDir()]: the right operand is only
    evaluated when the left one holds. *)
Definition isDirectFile (entry : entryInfo) : outcome bool :=
  if directRequest entry then
    match promoted entry IsDir with
    | Returns d => Returns (negb d)
    | Panics p => Panics p
    | OutOfFuel => OutOfFuel
    end
  else Returns false.

(** Lines 188-196: [directFileEntries] and [otherEntries]. *)
Fixpoint splitEntries (entries direct other : list entryInfo)
  : outcome (list entryInfo * list entryInfo) :=
  match entries with
  | [] => Returns (direct, other)
  | entry :: rest =>
      match isDirectFile entry with
      | Returns true => splitEntries rest (direct ++ [entry])%list other
      | Returns false => splitEntries rest direct (other ++ [entry])%list
      | Panics p => Panics p
      | OutOfFuel => OutOfFuel
      end
  end.

(** Lines 213-242 for one entry of [otherEntries]; the result is
    [entry.subEntries] as the slice stands afterwards (long mode sorts it
    in place). *)
Definition printOther (count : nat) (entry : entryInfo) : M (list entryInfo) :=
  (if (1 <? count)%nat then write (SafeName entry ++ ":" ++ newline) else ret tt) ;;;
  (if formatLongList config then
     total <- lift (blocksForSize entry (blockSize config)) ;;
     write ("total " ++ GoInt.Itoa total ++ newline)
   else ret tt) ;;;
  if negb (formatLongList config) then
    let subFileNames := map SafeName (subEntries entry) in
    (if (0 <? List.length subFileNames)%nat then
       write (Join (sortSlice string (lessLower w) subFileNames) (tab ++ tab ++ tab) ++ newline)
     else ret tt) ;;;
    ret (subEntries entry)
  else
    let sorted := sortSlice entryInfo (lessLowerPath w) (subEntries entry) in
    printLongEntries sorted ;;;
    ret sorted.

(** Lines 208-247; [first] is [i == 0]. *)
Fixpoint printOthers (self : list entryInfo -> bool -> M unit) (recurse : bool)
         (count : nat) (first : bool) (otherEntries : list entryInfo) : M unit :=
  match otherEntries with
  | [] => ret tt
  | entry :: rest =>
      (if first then ret tt else write newline) ;;;
      subs <- printOther count entry ;;
      (if recurse then self subs recurse else ret tt) ;;;
      printOthers self recurse count false rest
  end.

Fixpoint printEntries (fuel : nat) (entries : list entryInfo) (recurse : bool) : M unit :=
  match fuel with
  | O => diverge
  | S fuel' =>
      '(directFileEntries, otherEntries) <- lift (splitEntries entries [] []) ;;
      let directFileNames := map SafeName directFileEntries in
      (if negb (formatLongList config) && (0 <? List.length directFileNames)%nat then
         write (Join (sortSlice string lessString directFileNames) (tab ++ tab ++ tab) ++ newline)
       else if formatLongList config then printLongEntries directFileEntries
       else ret tt) ;;;
      printOthers (printEntries fuel') recurse (List.length entries) true otherEntries
  end.

(** ** [main] of [ls] *)

(** Lines 96-109. *)
Fixpoint statPaths (paths : list string) (entries : list entryInfo) (errs : list error)
  : M (list entryInfo * list error) :=
  match paths with
  | [] => ret (entries, errs)
  | p :: rest =>
      emit (EvStat p) ;;;
      let '(info, err) := osStat w p in
      let errs := appendErr errs err in
      let entries :=
        match info with
        | Some _ => (entries ++ [setDirectRequest (newEntryInfo p info) true])%list
        | None => entries
        end in
      statPaths rest entries errs
  end.

Definition flushWriter : M (option error) :=
  fun st => Returns (Flush w (written st), st).

(** The result is the exit status: 0 when [main] returns, 2 on
    [os.Exit(2)]. *)
Definition main (fuel : nat) (paths : list string) : M Z :=
  '(entries, errs) <- statPaths paths [] [] ;;
  '(entries, returned) <- fetchEntryInfo w fuel entries false ;;
  let errs := (errs ++ returned)%list in
  (if (0 <? List.length errs)%nat then printErrors errs else ret tt) ;;;
  printEntries fuel entries false ;;;
  flushed <- flushWriter ;;
  '(errs) <- match flushed with
             | Some err => printErrors [err] ;;; ret (errs ++ [err])%list
             | None => ret errs
             end ;;
  if (0 <? List.length errs)%nat then ret 2 else ret 0.

End Print.

(** ** [main] of [whoami] *)

Record Exit : Type := mkExit {
  stdoutText : string;
  stderrText : string;
  status : Z
}.

(** [current] is the result of [user.Current()], [euid] that of
    [os.Geteuid()]. *)
Definition whoami (current : option User * option error) (euid : Z) : outcome Exit :=
  let '(usr, err) := current in
  match err with
  | Some _ =>
      let uid := euid in
      Returns (mkExit "" ("cannot find name for user ID " ++ GoInt.Itoa uid) 1)
  | None =>
      match usr with
      | Some u => Returns (mkExit (Username u ++ newline) "" 0)
      | None => Panics NilDereference
      end
  end.

(** ** Auxiliary notions used in the statements *)

(** The dividend of [blocksForSize]. *)
Definition blockCount (e : entryInfo) (fi : FileInfo) : Z :=
  if IsDir fi then sumBlocks (subEntries e) else numBlocks e.

(** A property that holds of an entry and of all entries below it. *)
Inductive everywhere (P : entryInfo -> Prop) : entryInfo -> Prop :=
| everywhere_intro (e : entryInfo) :
    P e -> Forall (everywhere P) (subEntries e) -> everywhere P e.

(** An entry as [main] and the directory loop hand it to [fetchEntryInfo]. *)
Definition fresh (e : entryInfo) : Prop :=
  user e = None /\ group e = None /\ subEntries e = [].

(** An entry as [newEntryInfo] builds it, before the walk reaches it: the
    ids still hold the sentinel. *)
Definition unfetched (e : entryInfo) : Prop :=
  uID e = -1 /\ gID e = -1 /\ fresh e.

(** The numeric owner and group that [Sys()] reports; -1 when it is not a
    [*syscall.Stat_t]. *)
Definition statUid (fi : FileInfo) : Z :=
  match Sys fi with
  | Some sysStat => GoInt.toInt (Uid sysStat)
  | None => -1
  end.

Definition statGid (fi : FileInfo) : Z :=
  match Sys fi with
  | Some sysStat => GoInt.toInt (Gid sysStat)
  | None => -1
  end.

(** The owner to display for a file: the name of the account that
    [user.LookupId] returns for its uid, as it is; [Unknown] when the uid is
    not known or the lookup returns no account. *)
Definition ownerOf (w : World) (fi : FileInfo) : string :=
  if statUid fi =? -1 then "Unknown"
  else match fst (LookupId w (GoInt.Itoa (statUid fi))) with
       | Some u => Username u
       | None => "Unknown"
       end.

Definition groupOf (w : World) (fi : FileInfo) : string :=
  if statGid fi =? -1 then "Unknown"
  else match fst (LookupGroupId w (GoInt.Itoa (statGid fi))) with
       | Some g => GroupName g
       | None => "Unknown"
       end.

(** What [sort.Slice] and [sort.Strings] promise: the result is a
    rearrangement of the input and, when [less] is a strict weak order, no
    element is less than one placed before it. *)
Definition strictWeakOrder {A : Type} (less : A -> A -> bool) : Prop :=
  (forall a b, less a b = true -> less b a = false) /\
  (forall a b c, less a b = false -> less b c = false -> less a c = false).

Definition sortedBy {A : Type} (less : A -> A -> bool) (l : list A) : Prop :=
  StronglySorted (fun x y => less y x = false) l.

Definition sortContract (sortSlice : forall A : Type, (A -> A -> bool) -> list A -> list A)
  : Prop :=
  forall (A : Type) (less : A -> A -> bool) (l : list A),
    Permutation l (sortSlice A less l) /\
    (strictWeakOrder less -> sortedBy less (sortSlice A less l)).

(** The insertion sort that [sort.Slice] runs on slices of fewer than twelve
    elements: each element moves towards the front while it is less than its
    left neighbour.  [revPrefix] is the sorted prefix, last element first. *)
Fixpoint insertBack {A : Type} (less : A -> A -> bool) (x : A) (revPrefix : list A)
  : list A :=
  match revPrefix with
  | [] => [x]
  | p :: ps => if less x p then p :: insertBack less x ps else x :: p :: ps
  end.

(** The sorted prefix of the insertion sort, read from its last element. *)
Definition descending {A : Type} (less : A -> A -> bool) (r : list A) : Prop :=
  StronglySorted (fun x y => less x y = false) r.

Definition insertionSort (A : Type) (less : A -> A -> bool) (l : list A) : list A :=
  rev (fold_left (fun acc x => insertBack less x acc) l []).

(** ** The layout of a listing, as the specification words it

    These definitions do not come from the source: they describe the text of
    a listing by its parts, and are compared with [printEntries] below. *)

Definition obind {A B : Type} (o : outcome A) (k : A -> outcome B) : outcome B :=
  match o with
  | Returns a => k a
  | Panics p => Panics p
  | OutOfFuel => OutOfFuel
  end.

(** The state after [text] has been written to the tabwriter. *)
Definition wrote (st : state) (text : string) : state :=
  mkState (calls st) (written st ++ text) (stderr st).

(** Sections joined by empty lines; [first] tells whether the first of them
    opens the run of sections. *)
Definition joined (first : bool) (ss : list string) : string :=
  match ss with
  | [] => ""
  | _ => (if first then "" else newline) ++ Join ss newline
  end.

(** The state after the calls [evs] have been made. *)
Definition called (st : state) (evs : list event) : state :=
  mkState (calls st ++ evs)%list (written st) (stderr st).

(** The state after [text] has been written to the error stream. *)
Definition complained (st : state) (text : string) : state :=
  mkState (calls st) (written st) (stderr st ++ text).

(** The lines [printErrors] prints. *)
Fixpoint errorLines (errs : list error) : string :=
  match errs with
  | [] => ""
  | err :: rest => formatError err ++ newline ++ errorLines rest
  end.

(** The errors of [os.Stat] on the command-line paths, in order. *)
Definition statErrors (w : World) (paths : list string) : list error :=
  flat_map (fun p => match snd (osStat w p) with
                     | Some err => [err]
                     | None => []
                     end) paths.

(** Whether an entry goes to [directFileEntries]. *)
Definition directFile (e : entryInfo) : bool :=
  match fileInfo e with
  | Some fi => directRequest e && negb (IsDir fi)
  | None => false
  end.

Definition hasInfo (e : entryInfo) : Prop := fileInfo e <> None.

(** A direct request carries file information. *)
Definition splittable (e : entryInfo) : Prop := directRequest e = true -> hasInfo e.

(** The sum of the block counts, without wrap-around. *)
Definition blockSum (entries : list entryInfo) : Z :=
  fold_right Z.add 0 (map numBlocks entries).

(** After the walk, a directory holds one child per directory entry read,
    under the same names and in the same order; any other entry holds none. *)
Definition childrenAsRead (w : World) (e : entryInfo) : Prop :=
  match fileInfo e with
  | Some fi =>
      if IsDir fi
      then map path (subEntries e) = map deName (fst (osReadDir w (path e)))
      else subEntries e = []
  | None => False
  end.

(** The entry once the platform fields have been read (lines 135-140). *)
Definition withStat (e : entryInfo) : entryInfo :=
  match fileInfo e with
  | Some fi =>
      match Sys fi with
      | Some sysStat =>
          setStat e (GoInt.toInt (Nlink sysStat)) (GoInt.toUint (Blocks sysStat))
                  (GoInt.toInt (Uid sysStat)) (GoInt.toInt (Gid sysStat))
      | None => e
      end
  | None => e
  end.

(** The account lookups made for an entry. *)
Definition lookups (e : entryInfo) : list event :=
  ((if uID e =? -1 then [] else [EvLookupId (GoInt.Itoa (uID e))]) ++
   (if gID e =? -1 then [] else [EvLookupGroupId (GoInt.Itoa (gID e))]))%list.

Definition isPlain (e : entryInfo) : Prop :=
  exists fi, fileInfo e = Some fi /\ IsDir fi = false.

Definition isDirectory (e : entryInfo) : Prop :=
  exists fi, fileInfo e = Some fi /\ IsDir fi = true.

(** An entry and its children carry file information. *)
Definition printable (e : entryInfo) : Prop :=
  hasInfo e /\ Forall hasInfo (subEntries e).

Definition returned {A : Type} (o : outcome A) : Prop :=
  match o with
  | Returns _ => True
  | _ => False
  end.

(** Reading [p] yields a directory that is itself called [p]. *)
Definition selfNamed (w : World) (p : string) : Prop :=
  exists d fi,
    In d (fst (osReadDir w p)) /\ deName d = p /\
    fst (deInfo d) = Some fi /\ IsDir fi = true.

Definition directoryAt (p : string) (e : entryInfo) : Prop :=
  path e = p /\ isDirectory e.

(** The roots [main] keeps: one per path whose [Stat] gave file information. *)
Definition rootsOf (w : World) (paths : list string) : list entryInfo :=
  flat_map (fun p => match fst (osStat w p) with
                     | Some fi => [setDirectRequest (newEntryInfo p (Some fi)) true]
                     | None => []
                     end) paths.

Definition headerLine (entry : entryInfo) : string := SafeName entry ++ ":" ++ newline.

Section Layout.

Variable w : World.
Variable config : Config.
Variable sortSlice : forall A : Type, (A -> A -> bool) -> list A -> list A.

(** One row per entry. *)
Fixpoint rowsText (entries : list entryInfo) : outcome string :=
  match entries with
  | [] => Returns ""
  | entry :: rest =>
      obind (longLine w entry) (fun line =>
      obind (rowsText rest) (fun rows =>
      Returns (line ++ newline ++ rows)))
  end.

(** The listing of one directory, without its header. *)
Definition bodyText (entry : entryInfo) : outcome string :=
  if formatLongList config then
    obind (blocksForSize entry (blockSize config)) (fun total =>
    obind (rowsText (sortSlice entryInfo (lessLowerPath w) (subEntries entry))) (fun rows =>
    Returns ("total " ++ GoInt.Itoa total ++ newline ++ rows)))
  else
    match subEntries entry with
    | [] => Returns ""
    | _ => Returns (Join (sortSlice string (lessLower w) (map SafeName (subEntries entry)))
                         (tab ++ tab ++ tab) ++ newline)
    end.

(** A section: the header, when there is one, then the listing. *)
Definition sectionText (withHeader : bool) (entry : entryInfo) : outcome string :=
  obind (bodyText entry) (fun body =>
  Returns ((if withHeader then headerLine entry else "") ++ body)).

Fixpoint sectionTexts (withHeader : bool) (others : list entryInfo)
  : outcome (list string) :=
  match others with
  | [] => Returns []
  | entry :: rest =>
      obind (sectionText withHeader entry) (fun s =>
      obind (sectionTexts withHeader rest) (fun ss =>
      Returns (s :: ss)))
  end.

(** [entry.subEntries] once the entry has been printed. *)
Definition subsAfter (entry : entryInfo) : list entryInfo :=
  if formatLongList config
  then sortSlice entryInfo (lessLowerPath w) (subEntries entry)
  else subEntries entry.

(** The directly requested files. *)
Definition directText (direct : list entryInfo) : outcome string :=
  if formatLongList config then rowsText direct
  else
    match direct with
    | [] => Returns ""
    | _ => Returns (Join (sortSlice string lessString (map SafeName direct))
                         (tab ++ tab ++ tab) ++ newline)
    end.

(** The whole listing of [entries]: the direct files, then the sections of
    the other entries, separated by one empty line; sections carry a header
    when [entries] has more than one element. *)
Definition listingText (entries : list entryInfo) : outcome string :=
  obind (splitEntries entries [] []) (fun '(direct, others) =>
  obind (directText direct) (fun files =>
  obind (sectionTexts (1 <? List.length entries)%nat others) (fun ss =>
  Returns (files ++ Join ss newline)))).

End Layout.

(** The entry holds the ids that [Sys()] reports, and its long-format line
    carries the owner and the group to display for its file. *)
Definition ownerGroupColumns (w : World) (e : entryInfo) : Prop :=
  exists fi,
    fileInfo e = Some fi /\
    uID e = statUid fi /\ gID e = statGid fi /\
    longLine w e
    = Returns (modeString w (Mode fi) ++ tab ++ GoInt.Itoa (numLinks e) ++ tab ++
               ownerOf w fi ++ tab ++ groupOf w fi ++ tab ++ GoInt.Itoa (Size fi) ++ tab ++
               timeString w (ModTime fi)
                 (if Year (ModTime fi) <? nowYear w then dateFormat else timeFormat) ++
               tab ++ SafeName e).

(** ** Sample entries *)

Definition plainFile (name : string) (blocks : Z) : entryInfo :=
  mkEntryInfo name (Some (mkFileInfo name 0 420 (mkTime 2024 0) false None))
              false 1 blocks 0 0 None None [].

Definition directory (name : string) (children : list entryInfo) : entryInfo :=
  mkEntryInfo name (Some (mkFileInfo name 4096 2147484141 (mkTime 2024 0) true None))
              true 2 8 0 0 None None children.

Definition evenChildren (e : entryInfo) : Prop :=
  Forall (fun c => numBlocks c mod 2 = 0) (subEntries e).


(** ** A sample file system and account database *)

Module Sample.

Definition statOf (uid : Z) : option Stat_t := Some (mkStat 1 8 uid 0).

Definition fileOf (name : string) (uid : Z) : FileInfo :=
  mkFileInfo name 12 420 (mkTime 2024 0) false (statOf uid).

Definition dirOf (name : string) : FileInfo :=
  mkFileInfo name 4096 2147484141 (mkTime 2024 0) true (statOf 0).

Definition child (fi : FileInfo) : DirEntry := mkDirEntry (Name fi) (Some fi, None).

Definition notExist (op p : string) : error :=
  PathError op p "no such file or directory".

(** A child removed between the directory read and its [Info()] call. *)
Definition gone : DirEntry := mkDirEntry "gone" (None, Some (notExist "lstat" "racy/gone")).

Definition files : list (string * FileInfo) :=
  [ ("f", fileOf "f" 0);
    ("orphan", fileOf "orphan" 1234);
    ("Banana", fileOf "Banana" 0);
    ("apple", fileOf "apple" 0);
    ("d", dirOf "d");
    ("fruit", dirOf "fruit");
    ("locked", dirOf "locked");
    ("racy", dirOf "racy");
    (".", dirOf ".");
    ("s", dirOf "s");
    ("a", dirOf "a") ].

Definition listings : list (string * list DirEntry) :=
  [ ("d", [child (fileOf "b.txt" 0); child (fileOf "A.txt" 0)]);
    ("fruit", [child (fileOf "Banana" 0); child (fileOf "apple" 0)]);
    ("racy", [gone]);
    (".", [child (dirOf "s")]);
    ("s", [child (fileOf "g" 0)]);
    ("a", [child (dirOf "a")]) ].

Fixpoint find {A : Type} (key : string) (table : list (string * A)) : option A :=
  match table with
  | [] => None
  | (k, v) :: rest => if String.eqb k key then Some v else find key rest
  end.

Definition stat (p : string) : option FileInfo * option error :=
  match find p files with
  | Some fi => (Some fi, None)
  | None => (None, Some (notExist "stat" p))
  end.

Definition readDir (p : string) : list DirEntry * option error :=
  match find p listings with
  | Some l => (l, None)
  | None => ([], Some (PathError "open" p "permission denied"))
  end.

Definition lookupId (id : string) : option User * option error :=
  if String.eqb id "0" then (Some (mkUser "root" "0"), None)
  else (None, Some (PlainError ("user: unknown userid " ++ id))).

Definition lookupGroupId (id : string) : option Group * option error :=
  if String.eqb id "0" then (Some (mkGroup "wheel" "0"), None)
  else (None, Some (PlainError ("group: unknown groupid " ++ id))).

Definition world : World :=
  mkWorld stat readDir lookupId lookupGroupId
          (fun _ => None) 2025
          (fun mode => if mode <? 2147483648 then "-rw-r--r--" else "drwxr-xr-x")
          (fun _ layout => if String.eqb layout dateFormat then "Jan  1  2024" else "Jan  1 00:00")
          asciiToLower.

(** The same machine with an account database in which every account is
    named by its number. *)
Definition numbered : World :=
  mkWorld stat readDir (fun id => (Some (mkUser id id), None)) lookupGroupId
          (Flush world) (nowYear world) (modeString world) (timeString world)
          (ToLower world).

Definition short : Config := mkConfig 1024 false.
Definition long : Config := mkConfig 1024 true.

(** A root entry as [main] builds it. *)
Definition root (p : string) (fi : FileInfo) : entryInfo :=
  setDirectRequest (newEntryInfo p (Some fi)) true.

End Sample.
(** * Properties *)

(** ** Block counts *)

Lemma factor_zero_iff (blockSize : Z) :
  0 <= blockSize -> (blockSize / 512 = 0 <-> blockSize < 512).
Proof.
  intros Hnn. split; intros H.
  - apply Z.div_small_iff in H; lia.
  - apply Z.div_small; lia.
Qed.

Lemma udiv_returns (a b : Z) : b <> 0 -> udiv a b = Returns (a / b).
Proof.
  intros Hb. unfold udiv. destruct (Z.eqb_spec b 0); [contradiction | reflexivity].
Qed.

Lemma udiv_panics (a : Z) : udiv a 0 = Panics DivideByZero.
Proof. reflexivity. Qed.


Lemma blocksForSize_udiv (e : entryInfo) (fi : FileInfo) (blockSize : Z) :
  fileInfo e = Some fi ->
  blocksForSize e blockSize = udiv (blockCount e fi) (blockSize / 512).
Proof.
  intros Hfi. unfold blocksForSize, promoted, blockCount. rewrite Hfi.
  destruct (IsDir fi); reflexivity.
Qed.

(** C4: [blocksForSize] divides by [blockSize / 512] unguarded.  For an entry
    with file information and a block size in the range of [uint], the call
    returns exactly when the block size is at least 512; below 512 the
    divisor is zero and the call panics with a division by zero. *)
Theorem blocksForSize_division_safe_iff (e : entryInfo) (blockSize : Z) :
  GoInt.isUint blockSize ->
  fileInfo e <> None ->
  (blockSize / 512 = 0 <-> blockSize < 512) /\
  (512 <= blockSize <-> exists n, blocksForSize e blockSize = Returns n) /\
  (blockSize < 512 <-> blocksForSize e blockSize = Panics DivideByZero).
Proof.
  intros [Hlo _] Hfi.
  destruct (fileInfo e) as [fi|] eqn:Efi; [clear Hfi | contradiction].
  pose proof (factor_zero_iff blockSize Hlo) as Hz.
  rewrite (blocksForSize_udiv e fi blockSize Efi).
  split; [exact Hz|].
  destruct (Z_lt_ge_dec blockSize 512) as [Hlt | Hge].
  - assert (Hf : blockSize / 512 = 0) by (apply Hz; exact Hlt).
    rewrite Hf, udiv_panics. split; split; intros H.
    + lia.
    + destruct H as [n Hn]. discriminate.
    + reflexivity.
    + exact Hlt.
  - assert (Hf : blockSize / 512 <> 0) by (intros H; apply Hz in H; lia).
    rewrite (udiv_returns _ _ Hf). split; split; intros H.
    + eexists. reflexivity.
    + lia.
    + lia.
    + discriminate.
Qed.


Lemma blocksForSize_division_safe_iff_witness :
  (256 / 512 = 0 <-> 256 < 512) /\
  (512 <= 256 <-> exists n, blocksForSize (plainFile "a" 8) 256 = Returns n) /\
  (256 < 512 <-> blocksForSize (plainFile "a" 8) 256 = Panics DivideByZero).
Proof.
  apply (blocksForSize_division_safe_iff (plainFile "a" 8) 256).
  - unfold GoInt.isUint, GoInt.uintMod. lia.
  - simpl. discriminate.
Defined.

(** Doubling the block size. *)



(** C5, as stated, fails: with block size 768 the divisor is 1, with 1536 it
    is 3, and a directory whose only child holds 6 blocks totals 6 and 2. *)
Lemma blocksForSize_doubling_counterexample :
  let e := directory "d" [plainFile "a" 6] in
  GoInt.isUint 768 /\ evenChildren e /\
  blocksForSize e 768 = Returns 6 /\
  blocksForSize e (GoInt.toUint (768 * 2)) = Returns 2 /\
  2 <> 6 / 2.
Proof.
  cbv zeta. split; [unfold GoInt.isUint, GoInt.uintMod; lia|].
  split; [repeat constructor|].
  split; [vm_compute; reflexivity|].
  split; [vm_compute; reflexivity|].
  vm_compute. discriminate.
Qed.

(** C5, amended: for an entry with file information and a block size that is
    at least 512, leaves a remainder below 256 modulo 512 (every multiple of
    512 does) and whose double is still a [uint], the count for the doubled
    block size is half the count for the block size, under integer
    division. *)
Theorem blocksForSize_doubling (e : entryInfo) (blockSize : Z) :
  fileInfo e <> None ->
  512 <= blockSize ->
  blockSize mod 512 < 256 ->
  blockSize * 2 < GoInt.uintMod ->
  exists n,
    blocksForSize e blockSize = Returns n /\
    blocksForSize e (GoInt.toUint (blockSize * 2)) = Returns (n / 2).
Proof.
  intros Hfi Hge Hmod Hfit.
  destruct (fileInfo e) as [fi|] eqn:Efi; [clear Hfi | contradiction].
  assert (Hu : GoInt.toUint (blockSize * 2) = blockSize * 2).
  { unfold GoInt.toUint. apply Z.mod_small. lia. }
  rewrite Hu, !(blocksForSize_udiv e fi _ Efi).
  assert (Hf : blockSize * 2 / 512 = blockSize / 512 * 2).
  { pose proof (Z.div_mod blockSize 512 ltac:(lia)) as Hdm.
    pose proof (Z.mod_pos_bound blockSize 512 ltac:(lia)) as Hb.
    symmetry. apply Z.div_unique with (r := blockSize mod 512 * 2); lia. }
  assert (Hpos : 0 < blockSize / 512) by (apply Z.div_str_pos; lia).
  exists (blockCount e fi / (blockSize / 512)). split.
  - apply udiv_returns. lia.
  - rewrite Hf, udiv_returns by lia.
    f_equal. symmetry. apply Z.div_div; lia.
Qed.

Lemma blocksForSize_doubling_witness :
  exists n,
    blocksForSize (directory "d" [plainFile "a" 6]) 1024 = Returns n /\
    blocksForSize (directory "d" [plainFile "a" 6]) (GoInt.toUint (1024 * 2))
    = Returns (n / 2).
Proof.
  apply (blocksForSize_doubling (directory "d" [plainFile "a" 6]) 1024).
  - simpl. discriminate.
  - lia.
  - reflexivity.
  - reflexivity.
Defined.

(** ** Sample runs *)

Example fetch_f :
  fetchEntryInfo Sample.world 1 [Sample.root "f" (Sample.fileOf "f" 0)] false initial
  = Returns (([mkEntryInfo "f" (Some (Sample.fileOf "f" 0)) true 1 8 0 0
                           (Some (mkUser "root" "0")) (Some (mkGroup "wheel" "0")) []],
              []),
             mkState [EvLookupId "0"; EvLookupGroupId "0"] "" "").
Proof. vm_compute. reflexivity. Qed.

Example ls_d_short :
  main Sample.world Sample.short insertionSort 2 ["d"] initial
  = Returns (0, mkState [EvStat "d"; EvLookupId "0"; EvLookupGroupId "0"; EvReadDir "d";
                         EvInfo "b.txt"; EvInfo "A.txt";
                         EvLookupId "0"; EvLookupGroupId "0";
                         EvLookupId "0"; EvLookupGroupId "0"]
                        ("A.txt" ++ tab ++ tab ++ tab ++ "b.txt" ++ newline) "").
Proof. vm_compute. reflexivity. Qed.

(** ** [whoami] *)

(** C10: when the lookup of the current user succeeds, [whoami] prints the
    user name and a newline on standard output and exits with status 0; when
    it fails, it prints [cannot find name for user ID <euid>] on the error
    stream, prints nothing on standard output, and exits with status 1.  The
    lookup is made once: the run is a function of its single result. *)
Theorem whoami_contract :
  (forall (u : User) (euid : Z),
      whoami (Some u, None) euid = Returns (mkExit (Username u ++ newline) "" 0)) /\
  (forall (usr : option User) (e : error) (euid : Z),
      whoami (usr, Some e) euid
      = Returns (mkExit "" ("cannot find name for user ID " ++ GoInt.Itoa euid) 1)).
Proof. split; intros; reflexivity. Qed.

Example whoami_alice :
  whoami (Some (mkUser "alice" "1000"), None) 1000 = Returns (mkExit ("alice" ++ newline) "" 0).
Proof. reflexivity. Qed.

Example whoami_stranger :
  whoami (None, Some (PlainError "user: unknown userid 4242")) 4242
  = Returns (mkExit "" "cannot find name for user ID 4242" 1).
Proof. reflexivity. Qed.

(** ** The errors [fetchEntryInfo] returns *)

Lemma fetchEntryInfo_returns_nil (w : World) (fuel : nat) (entries : list entryInfo)
      (recurse : bool) (st st' : state) (entries' : list entryInfo) (errs : list error) :
  fetchEntryInfo w fuel entries recurse st = Returns ((entries', errs), st') ->
  errs = [].
Proof.
  destruct fuel as [|fuel]; simpl; [discriminate|].
  unfold bind.
  destruct (fetchLoop w (fetchEntryInfo w fuel) recurse entries [] st)
    as [[[es acc] st1] | p | ]; try discriminate.
  unfold ret. intros H. injection H as _ H _. symmetry. exact H.
Qed.

(** C1 (the code returns [nil]): [orphan] is owned by uid 1234, which has no
    account.  The lookup failure is appended to the local [errs], and the
    function returns an empty list; the same happens to the read failure of
    the directory [locked]. *)
Theorem fetchEntryInfo_loses_errors :
  (exists entries st,
      fetchAccumulated Sample.world 1 [Sample.root "orphan" (Sample.fileOf "orphan" 1234)]
                       false initial
      = Returns ((entries, [PlainError "user: unknown userid 1234"]), st) /\
      fetchEntryInfo Sample.world 1 [Sample.root "orphan" (Sample.fileOf "orphan" 1234)]
                     false initial
      = Returns ((entries, []), st)) /\
  (exists entries st,
      fetchAccumulated Sample.world 2 [Sample.root "locked" (Sample.dirOf "locked")]
                       false initial
      = Returns ((entries, [PathError "open" "locked" "permission denied"]), st) /\
      fetchEntryInfo Sample.world 2 [Sample.root "locked" (Sample.dirOf "locked")]
                     false initial
      = Returns ((entries, []), st)).
Proof.
  split; eexists; eexists; split; vm_compute; reflexivity.
Qed.

(** ** Exit status of [ls] *)

(** A path that cannot be stat'ed is reported and makes the run exit with 2. *)
Example ls_missing :
  main Sample.world Sample.short insertionSort 1 ["missing"] initial
  = Returns (2, mkState [EvStat "missing"] ""
                        ("cannot access 'missing': no such file or directory" ++ newline)).
Proof. vm_compute. reflexivity. Qed.

(** C2 (the code exits with 0 after an error): the lookup of the owner of
    [orphan] fails, and reading the directory [locked] fails; in both runs
    nothing is printed on the error stream and the exit status is 0. *)
Theorem main_exit_zero_after_error :
  fst (LookupId Sample.world "1234") = None /\
  snd (LookupId Sample.world "1234") <> None /\
  (exists st,
      main Sample.world Sample.short insertionSort 1 ["orphan"] initial = Returns (0, st) /\
      In (EvLookupId "1234") (calls st) /\ stderr st = "") /\
  snd (osReadDir Sample.world "locked") <> None /\
  (exists st,
      main Sample.world Sample.short insertionSort 2 ["locked"] initial = Returns (0, st) /\
      In (EvReadDir "locked") (calls st) /\ stderr st = "").
Proof.
  split; [reflexivity|].
  split; [vm_compute; discriminate|].
  split.
  - eexists. split; [vm_compute; reflexivity|]. split; [|reflexivity].
    simpl. right. left. reflexivity.
  - split; [vm_compute; discriminate|].
    eexists. split; [vm_compute; reflexivity|]. split; [|reflexivity].
    simpl. do 3 right. left. reflexivity.
Qed.

(** ** Entries without file information *)

(** C3 (a child whose [Info()] fails is kept): the child [gone] of [racy] is
    stored with a nil [FileInfo]; the recursive call then invokes [Sys()] on
    it and the run panics.  A command-line path whose [Stat] fails is
    dropped by [main]. *)
Theorem fetch_keeps_child_without_info :
  fetchChildren [Sample.gone] [] initial
  = Returns (([newEntryInfo "gone" None], [Sample.notExist "lstat" "racy/gone"]),
             mkState [EvInfo "gone"] "" "") /\
  (forall n,
      fetchEntryInfo Sample.world (S (S n)) [Sample.root "racy" (Sample.dirOf "racy")]
                     false initial
      = Panics NilDereference) /\
  (forall n,
      main Sample.world Sample.short insertionSort (S (S n)) ["racy"] initial
      = Panics NilDereference) /\
  statPaths Sample.world ["missing"] [] [] initial
  = Returns (([], [Sample.notExist "stat" "missing"]), mkState [EvStat "missing"] "" "").
Proof.
  split; [reflexivity|].
  split; [intros n; reflexivity|].
  split; [intros n; reflexivity|].
  reflexivity.
Qed.

(** ** Depth of the walk *)

Section IgnoresRecurse.

Variable w : World.
Variables self self' : list entryInfo -> bool -> M (list entryInfo * list error).
Hypothesis self_agree : forall entries st, self entries true st = self' entries false st.

Lemma fetchDir_ignores_recurse (e : entryInfo) (errs : list error) (st : state) :
  fetchDir w self true e errs st = fetchDir w self' false e errs st.
Proof.
  unfold fetchDir, bind.
  destruct (lift (promoted e IsDir) st) as [[[|] st1] | p | ]; try reflexivity.
  destruct (emit (EvReadDir (path e)) st1) as [[[] st2] | p | ]; try reflexivity.
  destruct (osReadDir w (path e)) as [dirEntries err].
  destruct (fetchChildren dirEntries (appendErr errs err) st2)
    as [[[subs errs1] st3] | p | ]; try reflexivity.
  rewrite self_agree. reflexivity.
Qed.

Lemma fetchEntry_ignores_recurse (e : entryInfo) (errs : list error) (st : state) :
  fetchEntry w self true e errs st = fetchEntry w self' false e errs st.
Proof.
  unfold fetchEntry, bind.
  destruct (fetchStat e st) as [[e1 st1] | p | ]; try reflexivity.
  destruct (fetchUser w e1 errs st1) as [[[e2 errs2] st2] | p | ]; try reflexivity.
  destruct (fetchGroup w e2 errs2 st2) as [[[e3 errs3] st3] | p | ]; try reflexivity.
  apply fetchDir_ignores_recurse.
Qed.

Lemma fetchLoop_ignores_recurse (entries : list entryInfo) :
  forall (errs : list error) (st : state),
    fetchLoop w self true entries errs st = fetchLoop w self' false entries errs st.
Proof.
  induction entries as [|e rest IH]; intros errs st; simpl; [reflexivity|].
  unfold bind. rewrite fetchEntry_ignores_recurse.
  destruct (fetchEntry w self' false e errs st) as [[[e' errs1] st1] | p | ];
    try reflexivity.
  rewrite IH. reflexivity.
Qed.

End IgnoresRecurse.

(** The flag does not influence the walk. *)
Lemma fetchEntryInfo_ignores_recurse (w : World) (fuel : nat) :
  forall (entries : list entryInfo) (st : state),
    fetchEntryInfo w fuel entries true st = fetchEntryInfo w fuel entries false st.
Proof.
  induction fuel as [|fuel IH]; intros entries st; simpl; [reflexivity|].
  unfold bind.
  rewrite (fetchLoop_ignores_recurse w _ _ IH). reflexivity.
Qed.

Lemma fetchEntryInfo_step (w : World) (fuel : nat) (entries : list entryInfo)
      (recurse : bool) :
  fetchEntryInfo w (S fuel) entries recurse
  = bind (fetchLoop w (fetchEntryInfo w fuel) recurse entries [])
         (fun '(entries', errs) => ret (entries', [])).
Proof. reflexivity. Qed.

(** A directory [a] that contains a directory [a]: the child is read under
    its bare name, which names the parent again, and the walk never ends. *)
Lemma fetchEntryInfo_endless (fuel : nat) :
  forall (e : entryInfo) (st : state),
    path e = "a" -> fileInfo e = Some (Sample.dirOf "a") ->
    fetchEntryInfo Sample.world fuel [e] false st = OutOfFuel.
Proof.
  induction fuel as [|fuel IH]; intros e st Hp Hf; [reflexivity|].
  destruct e as [p fi dr nl nb uid gid u g subs]. simpl in Hp, Hf. subst p fi.
  rewrite fetchEntryInfo_step.
  remember (fetchEntryInfo Sample.world fuel) as self eqn:Eself.
  lazy.
  rewrite IH; reflexivity.
Qed.

(** C6 (the walk descends although the flag is false): listing [.], whose
    child [s] is a directory holding [g], reads [s] and fetches [g]. *)
Theorem fetchEntryInfo_descends_without_flag :
  exists root' s' g' st,
    fetchEntryInfo Sample.world 3 [Sample.root "." (Sample.dirOf ".")] false initial
    = Returns (([root'], []), st) /\
    subEntries root' = [s'] /\ path s' = "s" /\
    subEntries s' = [g'] /\ path g' = "g" /\ user g' = Some (mkUser "root" "0") /\
    calls st = [EvLookupId "0"; EvLookupGroupId "0"; EvReadDir "."; EvInfo "s";
                EvLookupId "0"; EvLookupGroupId "0"; EvReadDir "s"; EvInfo "g";
                EvLookupId "0"; EvLookupGroupId "0"].
Proof.
  do 4 eexists. split; [vm_compute; reflexivity|].
  repeat split; reflexivity.
Qed.

(** ** Sorting *)

Section StringOrder.

Lemma ltb_lt (a b : string) : String.ltb a b = true <-> String_as_OT.lt a b.
Proof.
  unfold String.ltb. rewrite <- String_as_OT.cmp_lt. unfold String_as_OT.cmp.
  destruct (String.compare a b); split; intros H; congruence.
Qed.

Lemma ltb_asym (a b : string) : String.ltb a b = true -> String.ltb b a = false.
Proof.
  unfold String.ltb. rewrite (String.compare_antisym b a).
  destruct (String.compare a b); simpl; congruence.
Qed.

Lemma ltb_false_cases (a b : string) :
  String.ltb a b = false -> a = b \/ String.ltb b a = true.
Proof.
  unfold String.ltb. rewrite (String.compare_antisym b a).
  destruct (String.compare a b) eqn:E; simpl; intros H.
  - left. apply String.compare_eq_iff. exact E.
  - discriminate.
  - right. reflexivity.
Qed.

Lemma ltb_trans (a b c : string) :
  String.ltb a b = true -> String.ltb b c = true -> String.ltb a c = true.
Proof.
  rewrite !ltb_lt. apply String_as_OT.lt_trans.
Qed.

Lemma ltb_negative_trans (a b c : string) :
  String.ltb a b = false -> String.ltb b c = false -> String.ltb a c = false.
Proof.
  intros Hab Hbc.
  destruct (String.ltb a c) eqn:Hac; [exfalso | reflexivity].
  destruct (ltb_false_cases a b Hab) as [-> | Hba].
  - congruence.
  - pose proof (ltb_trans b a c Hba Hac). congruence.
Qed.

(** Ordering by a string key is a strict weak order. *)
Lemma keyed_strictWeakOrder {A : Type} (key : A -> string) :
  strictWeakOrder (fun a b => String.ltb (key a) (key b)).
Proof.
  split.
  - intros a b. apply ltb_asym.
  - intros a b c. apply ltb_negative_trans.
Qed.

End StringOrder.

Lemma lessString_strictWeakOrder : strictWeakOrder lessString.
Proof. exact (keyed_strictWeakOrder (fun s => s)). Qed.

Lemma lessLower_strictWeakOrder (w : World) : strictWeakOrder (lessLower w).
Proof. exact (keyed_strictWeakOrder (ToLower w)). Qed.

Lemma lessLowerPath_strictWeakOrder (w : World) : strictWeakOrder (lessLowerPath w).
Proof. exact (keyed_strictWeakOrder (fun e => ToLower w (path e))). Qed.

Section InsertionSort.

Context {A : Type}.
Variable less : A -> A -> bool.

Lemma insertBack_perm (x : A) (r : list A) : Permutation (x :: r) (insertBack less x r).
Proof.
  induction r as [|p ps IH]; simpl; [reflexivity|].
  destruct (less x p).
  - rewrite perm_swap. apply perm_skip. exact IH.
  - reflexivity.
Qed.

Lemma insertBack_descending (x : A) (r : list A) :
  strictWeakOrder less -> descending less r -> descending less (insertBack less x r).
Proof.
  intros [Hasym Hneg]. unfold descending.
  induction r as [|p ps IH]; intros Hr; simpl.
  - constructor; constructor.
  - inversion Hr as [|? ? Hps Hall]; subst.
    destruct (less x p) eqn:Hxp.
    + constructor; [apply IH; exact Hps|].
      apply (Permutation_Forall (insertBack_perm x ps)).
      constructor; [apply Hasym; exact Hxp | exact Hall].
    + constructor; [exact Hr|].
      constructor; [exact Hxp|].
      apply Forall_forall. intros y Hy.
      apply Hneg with (b := p); [exact Hxp|].
      rewrite Forall_forall in Hall. apply Hall. exact Hy.
Qed.

Lemma insert_all_perm (l : list A) :
  forall acc, Permutation (l ++ acc)%list (fold_left (fun a x => insertBack less x a) l acc).
Proof.
  induction l as [|x l IH]; intros acc; simpl; [reflexivity|].
  rewrite <- IH. rewrite <- insertBack_perm. apply Permutation_middle.
Qed.

Lemma insert_all_descending (l : list A) :
  strictWeakOrder less ->
  forall acc, descending less acc ->
              descending less (fold_left (fun a x => insertBack less x a) l acc).
Proof.
  intros Hswo. induction l as [|x l IH]; intros acc Hacc; simpl; [exact Hacc|].
  apply IH. apply insertBack_descending; assumption.
Qed.

Lemma sortedBy_snoc (l : list A) (x : A) :
  sortedBy less l -> Forall (fun y => less x y = false) l -> sortedBy less (l ++ [x])%list.
Proof.
  unfold sortedBy. induction l as [|a l IH]; intros Hs Hall; simpl.
  - constructor; constructor.
  - inversion Hs as [|? ? Hl Ha]; subst. inversion Hall as [|? ? Hxa Hxl]; subst.
    constructor; [apply IH; assumption|].
    apply Forall_app. split; [exact Ha|]. constructor; [exact Hxa | constructor].
Qed.

Lemma descending_rev (r : list A) : descending less r -> sortedBy less (rev r).
Proof.
  unfold descending. induction r as [|x r IH]; intros Hr; simpl.
  - constructor.
  - inversion Hr as [|? ? Hr' Hall]; subst.
    apply sortedBy_snoc; [apply IH; exact Hr'|].
    apply Forall_rev. exact Hall.
Qed.

End InsertionSort.

(** The insertion sort meets what the callers of [sort.Slice] rely on. *)
Lemma insertionSort_contract : sortContract insertionSort.
Proof.
  intros A less l. unfold insertionSort. split.
  - rewrite <- Permutation_rev. rewrite <- insert_all_perm.
    rewrite app_nil_r. reflexivity.
  - intros Hswo. apply descending_rev.
    apply insert_all_descending; [exact Hswo | constructor].
Qed.

(** Two elements in strict order stay as they are. *)
Lemma sort_ordered_pair {A : Type} (sortSlice : forall A : Type, (A -> A -> bool) -> list A -> list A)
      (less : A -> A -> bool) (a b : A) :
  sortContract sortSlice -> strictWeakOrder less -> less a b = true ->
  sortSlice A less [a; b] = [a; b].
Proof.
  intros Hc Hswo Hab. destruct (Hc A less [a; b]) as [Hperm Hsorted].
  specialize (Hsorted Hswo).
  apply Permutation_length_2_inv in Hperm. destruct Hperm as [-> | Heq]; [reflexivity|].
  rewrite Heq in Hsorted. inversion Hsorted as [|? ? _ Hall]; subst.
  inversion Hall as [|? ? Hba _]; subst. congruence.
Qed.

Lemma sort_swapped_pair {A : Type} (sortSlice : forall A : Type, (A -> A -> bool) -> list A -> list A)
      (less : A -> A -> bool) (a b : A) :
  sortContract sortSlice -> strictWeakOrder less -> less b a = true ->
  sortSlice A less [a; b] = [b; a].
Proof.
  intros Hc Hswo Hba. destruct (Hc A less [a; b]) as [Hperm Hsorted].
  specialize (Hsorted Hswo).
  apply Permutation_length_2_inv in Hperm. destruct Hperm as [Heq | ->]; [|reflexivity].
  rewrite Heq in Hsorted. inversion Hsorted as [|? ? _ Hall]; subst.
  inversion Hall as [|? ? Hab _]; subst. congruence.
Qed.

(** ** Order of the names *)

(** C7 (the direct-file list is sorted bytewise): [ls Banana apple] prints
    [Banana] before [apple], whatever sorting algorithm meets the contract of
    [sort.Strings]; listed as the children of the directory [fruit], the same
    two names come out as [apple], [Banana]. *)
Theorem direct_files_sorted_case_sensitively
        (sortSlice : forall A : Type, (A -> A -> bool) -> list A -> list A) :
  sortContract sortSlice ->
  (exists st,
      main Sample.world Sample.short sortSlice 1 ["Banana"; "apple"] initial
      = Returns (0, st) /\
      written st = "Banana" ++ tab ++ tab ++ tab ++ "apple" ++ newline) /\
  (exists st,
      main Sample.world Sample.short sortSlice 2 ["fruit"] initial = Returns (0, st) /\
      written st = "apple" ++ tab ++ tab ++ tab ++ "Banana" ++ newline).
Proof.
  intros Hc.
  assert (Hdirect : sortSlice string lessString ["Banana"; "apple"] = ["Banana"; "apple"]).
  { apply sort_ordered_pair;
      [exact Hc | exact lessString_strictWeakOrder | reflexivity]. }
  assert (Hchildren : sortSlice string (lessLower Sample.world) ["Banana"; "apple"]
                      = ["apple"; "Banana"]).
  { apply sort_swapped_pair;
      [exact Hc | exact (lessLower_strictWeakOrder Sample.world) | reflexivity]. }
  split.
  - eexists. split.
    + cbn -[lessString]. rewrite Hdirect. reflexivity.
    + reflexivity.
  - eexists. split.
    + cbn -[lessLower]. rewrite Hchildren. reflexivity.
    + reflexivity.
Qed.

Lemma direct_files_sorted_case_sensitively_witness :
  (exists st,
      main Sample.world Sample.short insertionSort 1 ["Banana"; "apple"] initial
      = Returns (0, st) /\
      written st = "Banana" ++ tab ++ tab ++ tab ++ "apple" ++ newline) /\
  (exists st,
      main Sample.world Sample.short insertionSort 2 ["fruit"] initial = Returns (0, st) /\
      written st = "apple" ++ tab ++ tab ++ tab ++ "Banana" ++ newline).
Proof.
  apply (direct_files_sorted_case_sensitively insertionSort).
  exact insertionSort_contract.
Defined.

(** ** Owner and group columns *)

Lemma append_assoc (a b c : string) : (a ++ b) ++ c = a ++ b ++ c.
Proof.
  induction a as [|ch a IH]; simpl; [reflexivity | rewrite IH; reflexivity].
Qed.

Section Resolution.

Variable w : World.

Lemma fetchStat_keeps (e e1 : entryInfo) (st st1 : state) :
  fetchStat e st = Returns (e1, st1) ->
  fileInfo e1 = fileInfo e /\ user e1 = user e /\ group e1 = group e /\
  path e1 = path e.
Proof.
  unfold fetchStat, bind, lift, promoted, ret.
  destruct (fileInfo e) as [fi|] eqn:Efi; [|discriminate].
  destruct (Sys fi) as [sysStat|]; intros H; injection H as <- _; simpl;
    rewrite ?Efi; repeat split; reflexivity.
Qed.

Lemma fetchUser_resolves (e e' : entryInfo) (errs errs' : list error) (st st' : state) :
  fetchUser w e errs st = Returns ((e', errs'), st') ->
  fileInfo e' = fileInfo e /\ group e' = group e /\ path e' = path e /\
  uID e' = uID e /\ gID e' = gID e /\
  (uID e = -1 /\ user e' = user e \/
   uID e <> -1 /\ user e' = fst (LookupId w (GoInt.Itoa (uID e)))).
Proof.
  unfold fetchUser, bind, emit, ret.
  destruct (Z.eqb_spec (uID e) (-1)) as [Heq | Hne].
  - intros H; injection H as <- _ _. repeat split. left. split; [exact Heq | reflexivity].
  - destruct (LookupId w (GoInt.Itoa (uID e))) as [userInfo err].
    intros H; injection H as <- _ _. repeat split. right. split; [exact Hne | reflexivity].
Qed.

Lemma fetchGroup_resolves (e e' : entryInfo) (errs errs' : list error) (st st' : state) :
  fetchGroup w e errs st = Returns ((e', errs'), st') ->
  fileInfo e' = fileInfo e /\ user e' = user e /\ path e' = path e /\
  uID e' = uID e /\ gID e' = gID e /\
  (gID e = -1 /\ group e' = group e \/
   gID e <> -1 /\ group e' = fst (LookupGroupId w (GoInt.Itoa (gID e)))).
Proof.
  unfold fetchGroup, bind, emit, ret.
  destruct (Z.eqb_spec (gID e) (-1)) as [Heq | Hne].
  - intros H; injection H as <- _ _. repeat split. left. split; [exact Heq | reflexivity].
  - destruct (LookupGroupId w (GoInt.Itoa (gID e))) as [groupInfo err].
    intros H; injection H as <- _ _. repeat split. right. split; [exact Hne | reflexivity].
Qed.

Lemma fetchDir_keeps (self : list entryInfo -> bool -> M (list entryInfo * list error))
      (recurse : bool) (e e' : entryInfo) (errs errs' : list error) (st st' : state) :
  fetchDir w self recurse e errs st = Returns ((e', errs'), st') ->
  fileInfo e' = fileInfo e /\ user e' = user e /\ group e' = group e /\
  path e' = path e /\ uID e' = uID e /\ gID e' = gID e.
Proof.
  unfold fetchDir, bind, lift, promoted, emit, ret.
  destruct (fileInfo e) as [fi|] eqn:Efi; [|discriminate].
  destruct (IsDir fi).
  - destruct (osReadDir w (path e)) as [dirEntries err].
    destruct (fetchChildren dirEntries (appendErr errs err) _)
      as [[[subs errs1] st1] | p | ]; try discriminate.
    destruct (self subs recurse st1) as [[[subs' returned] st2] | p | ]; try discriminate.
    intros H; injection H as <- _ _. simpl. rewrite Efi. repeat split; reflexivity.
  - intros H; injection H as <- _ _. rewrite Efi. repeat split; reflexivity.
Qed.

Lemma fetchStat_ids (e e1 : entryInfo) (st st1 : state) :
  uID e = -1 -> gID e = -1 ->
  fetchStat e st = Returns (e1, st1) ->
  exists fi, fileInfo e = Some fi /\ uID e1 = statUid fi /\ gID e1 = statGid fi.
Proof.
  intros Hu Hg. unfold fetchStat, bind, lift, promoted, ret, statUid, statGid.
  destruct (fileInfo e) as [fi|] eqn:Efi; [|discriminate].
  destruct (Sys fi) as [sysStat|] eqn:Esys; intros H; injection H as <- _; exists fi;
    rewrite Esys; repeat split; try assumption; reflexivity.
Qed.

(** What one pass of the loop body leaves in the ids and in the [user] and
    [group] fields of an entry that the walk had not reached. *)
Lemma fetchEntry_accounts (self : list entryInfo -> bool -> M (list entryInfo * list error))
      (recurse : bool) (e0 e : entryInfo) (errs errs' : list error) (st st' : state) :
  unfetched e0 ->
  fetchEntry w self recurse e0 errs st = Returns ((e, errs'), st') ->
  exists fi,
    fileInfo e = Some fi /\ uID e = statUid fi /\ gID e = statGid fi /\
    userName e = ownerOf w fi /\ groupName e = groupOf w fi.
Proof.
  intros (Hui & Hgi & Hu & Hg & _). unfold fetchEntry, bind.
  destruct (fetchStat e0 st) as [[e1 st1] | p | ] eqn:E1; try discriminate.
  destruct (fetchUser w e1 errs st1) as [[[e2 errs2] st2] | p | ] eqn:E2; try discriminate.
  destruct (fetchGroup w e2 errs2 st2) as [[[e3 errs3] st3] | p | ] eqn:E3; try discriminate.
  intros E4.
  destruct (fetchStat_ids _ _ _ _ Hui Hgi E1) as (fi & Hfi & Huid & Hgid).
  apply fetchStat_keeps in E1. destruct E1 as (F1 & U1 & G1 & P1).
  apply fetchUser_resolves in E2. destruct E2 as (F2 & G2 & P2 & I2 & J2 & U2).
  apply fetchGroup_resolves in E3. destruct E3 as (F3 & U3 & P3 & I3 & J3 & G3).
  apply fetchDir_keeps in E4. destruct E4 as (F4 & U4 & G4 & P4 & I4 & J4).
  exists fi. split; [congruence|]. split; [congruence|]. split; [congruence|]. split.
  - unfold userName, ownerOf. rewrite U4, U3, <- Huid.
    destruct U2 as [[Hnone Hsame] | [Hne Hres]].
    + rewrite Hsame, U1, Hu, Hnone. reflexivity.
    + rewrite Hres. apply Z.eqb_neq in Hne. rewrite Hne. reflexivity.
  - unfold groupName, groupOf. rewrite G4, <- Hgid.
    assert (Hg2 : gID e2 = gID e1) by exact J2.
    destruct G3 as [[Hnone Hsame] | [Hne Hres]].
    + rewrite Hsame, G2, G1, Hg, <- Hg2, Hnone. reflexivity.
    + rewrite Hres, Hg2. apply Z.eqb_neq in Hne. rewrite Hg2 in Hne. rewrite Hne.
      reflexivity.
Qed.

Lemma longLine_columns (e : entryInfo) (fi : FileInfo) :
  fileInfo e = Some fi ->
  longLine w e
  = Returns (modeString w (Mode fi) ++ tab ++ GoInt.Itoa (numLinks e) ++ tab ++
             userName e ++ tab ++ groupName e ++ tab ++ GoInt.Itoa (Size fi) ++ tab ++
             timeString w (ModTime fi)
               (if Year (ModTime fi) <? nowYear w then dateFormat else timeFormat) ++
             tab ++ SafeName e).
Proof.
  intros Hfi. unfold longLine, promoted. rewrite Hfi. cbv zeta.
  rewrite !append_assoc. reflexivity.
Qed.

End Resolution.

Section Columns.

Variable w : World.

Lemma resolved_columns (e : entryInfo) (fi : FileInfo) :
  fileInfo e = Some fi -> uID e = statUid fi -> gID e = statGid fi ->
  userName e = ownerOf w fi -> groupName e = groupOf w fi ->
  ownerGroupColumns w e.
Proof.
  intros Hfi Hu Hg Ho Hgr. exists fi.
  split; [exact Hfi|]. split; [exact Hu|]. split; [exact Hg|].
  rewrite (longLine_columns w e fi Hfi), Ho, Hgr. reflexivity.
Qed.

Lemma fetchChildren_unfetched (dirEntries : list DirEntry) :
  forall errs st subs errs' st',
    fetchChildren dirEntries errs st = Returns ((subs, errs'), st') ->
    Forall unfetched subs.
Proof.
  induction dirEntries as [|d rest IH]; intros errs st subs errs' st'; simpl.
  - unfold ret. intros H; injection H as <- _ _. constructor.
  - unfold bind, emit. destruct (deInfo d) as [dirInfo err].
    destruct (fetchChildren rest (appendErr errs err) _)
      as [[[subs0 errs0] st0] | p | ] eqn:E; try discriminate.
    unfold ret. intros H; injection H as <- _ _.
    constructor; [repeat split | eapply IH; exact E].
Qed.

Lemma fetchChildren_fresh (dirEntries : list DirEntry) :
  forall errs st subs errs' st',
    fetchChildren dirEntries errs st = Returns ((subs, errs'), st') ->
    Forall fresh subs.
Proof.
  induction dirEntries as [|d rest IH]; intros errs st subs errs' st'; simpl.
  - unfold ret. intros H; injection H as <- _ _. constructor.
  - unfold bind, emit. destruct (deInfo d) as [dirInfo err].
    destruct (fetchChildren rest (appendErr errs err) _)
      as [[[subs0 errs0] st0] | p | ] eqn:E; try discriminate.
    unfold ret. intros H; injection H as <- _ _.
    constructor; [repeat split | eapply IH; exact E].
Qed.

Lemma fetchEntry_subEntries
      (self : list entryInfo -> bool -> M (list entryInfo * list error))
      (recurse : bool) (e0 e : entryInfo) (errs errs' : list error) (st st' : state) :
  fetchEntry w self recurse e0 errs st = Returns ((e, errs'), st') ->
  subEntries e = subEntries e0 \/
  exists subs st1 returned st2,
    Forall unfetched subs /\
    self subs recurse st1 = Returns ((subEntries e, returned), st2).
Proof.
  unfold fetchEntry, bind.
  destruct (fetchStat e0 st) as [[e1 st1] | p | ] eqn:E1; try discriminate.
  destruct (fetchUser w e1 errs st1) as [[[e2 errs2] st2] | p | ] eqn:E2; try discriminate.
  destruct (fetchGroup w e2 errs2 st2) as [[[e3 errs3] st3] | p | ] eqn:E3; try discriminate.
  assert (S1 : subEntries e1 = subEntries e0).
  { revert E1. unfold fetchStat, bind, lift, promoted, ret.
    destruct (fileInfo e0) as [fi|]; [|discriminate].
    destruct (Sys fi); intros H; injection H as <- _; reflexivity. }
  assert (S2 : subEntries e2 = subEntries e1).
  { revert E2. unfold fetchUser, bind, emit, ret.
    destruct (uID e1 =? -1); [|destruct (LookupId w _)];
      intros H; injection H as <- _ _; reflexivity. }
  assert (S3 : subEntries e3 = subEntries e2).
  { revert E3. unfold fetchGroup, bind, emit, ret.
    destruct (gID e2 =? -1); [|destruct (LookupGroupId w _)];
      intros H; injection H as <- _ _; reflexivity. }
  unfold fetchDir, bind, lift, promoted, emit, ret.
  destruct (fileInfo e3) as [fi|]; [|discriminate].
  destruct (IsDir fi).
  - destruct (osReadDir w (path e3)) as [dirEntries err].
    destruct (fetchChildren dirEntries (appendErr errs3 err) _)
      as [[[subs errs1] st4] | p | ] eqn:EC; try discriminate.
    destruct (self subs recurse st4) as [[[subs' returned] st5] | p | ] eqn:ES;
      try discriminate.
    intros H; injection H as <- _ _. right.
    exists subs, st4, returned, st5. split; [|exact ES].
    eapply fetchChildren_unfetched; exact EC.
  - intros H; injection H as <- _ _. left. congruence.
Qed.

Section Loop.

Variable self : list entryInfo -> bool -> M (list entryInfo * list error).
Hypothesis self_columns :
  forall l r st l' errs st',
    self l r st = Returns ((l', errs), st') ->
    Forall unfetched l -> Forall (everywhere (ownerGroupColumns w)) l'.

Lemma fetchLoop_columns (recurse : bool) (entries : list entryInfo) :
  forall errs st entries' errs' st',
    fetchLoop w self recurse entries errs st = Returns ((entries', errs'), st') ->
    Forall unfetched entries ->
    Forall (everywhere (ownerGroupColumns w)) entries'.
Proof.
  induction entries as [|e rest IH]; intros errs st entries' errs' st'; simpl.
  - unfold ret. intros H _; injection H as <- _ _. constructor.
  - unfold bind.
    destruct (fetchEntry w self recurse e errs st)
      as [[[e' errs1] st1] | p | ] eqn:EE; try discriminate.
    destruct (fetchLoop w self recurse rest errs1 st1)
      as [[[rest' errs2] st2] | p | ] eqn:EL; try discriminate.
    unfold ret. intros H Hfresh; injection H as <- _ _.
    inversion Hfresh as [|? ? He Hrest]; subst.
    constructor; [|eapply IH; [exact EL | exact Hrest]].
    destruct (fetchEntry_accounts w self recurse e e' errs errs1 st st1 He EE)
      as (fi & Hfi & Hui & Hgi & Ho & Hgr).
    destruct He as (_ & _ & _ & _ & Hs).
    constructor; [apply (resolved_columns e' fi); assumption|].
    destruct (fetchEntry_subEntries self recurse e e' errs errs1 st st1 EE)
      as [Hsame | (subs & sta & returned & stb & Hsubs & Hcall)].
    + rewrite Hsame, Hs. constructor.
    + eapply self_columns; [exact Hcall | exact Hsubs].
Qed.

End Loop.

Lemma fetchEntryInfo_columns (fuel : nat) :
  forall entries recurse st entries' errs st',
    fetchEntryInfo w fuel entries recurse st = Returns ((entries', errs), st') ->
    Forall unfetched entries ->
    Forall (everywhere (ownerGroupColumns w)) entries'.
Proof.
  induction fuel as [|fuel IH]; intros entries recurse st entries' errs st'; simpl;
    [discriminate|].
  unfold bind.
  destruct (fetchLoop w (fetchEntryInfo w fuel) recurse entries [] st)
    as [[[es acc] st1] | p | ] eqn:EL; try discriminate.
  unfold ret. intros H Hfresh; injection H as <- _ _.
  eapply fetchLoop_columns; [exact IH | exact EL | exact Hfresh].
Qed.

End Columns.

(** ** Layout of the listing *)

Lemma append_nil_r (s : string) : s ++ "" = s.
Proof. induction s as [|c s IH]; simpl; [reflexivity | rewrite IH; reflexivity]. Qed.

Lemma wrote_wrote (st : state) (a b : string) : wrote (wrote st a) b = wrote st (a ++ b).
Proof. unfold wrote. simpl. rewrite append_assoc. reflexivity. Qed.

Lemma wrote_nothing (st : state) : wrote st "" = st.
Proof. destruct st. unfold wrote. simpl. rewrite append_nil_r. reflexivity. Qed.

Lemma bind_write {A : Type} (text : string) (k : unit -> M A) (st : state) :
  bind (write text) k st = k tt (wrote st text).
Proof. reflexivity. Qed.

Lemma bind_ret {A B : Type} (a : A) (k : A -> M B) (st : state) :
  bind (ret a) k st = k a st.
Proof. reflexivity. Qed.

Lemma bind_lift {A B : Type} (o : outcome A) (k : A -> M B) (st : state) :
  bind (lift o) k st = obind o (fun a => k a st).
Proof. destruct o; reflexivity. Qed.

Lemma bind_bind {A B C : Type} (m : M A) (k : A -> M B) (h : B -> M C) (st : state) :
  bind (bind m k) h st = bind m (fun a => bind (k a) h) st.
Proof. unfold bind. destruct (m st) as [[a st1] | p | ]; reflexivity. Qed.

Section LayoutProofs.

Variable w : World.
Variable config : Config.
Variable sortSlice : forall A : Type, (A -> A -> bool) -> list A -> list A.

Lemma printLongEntries_rows (entries : list entryInfo) :
  forall st,
    printLongEntries w entries st
    = obind (rowsText w entries) (fun rows => Returns (tt, wrote st rows)).
Proof.
  induction entries as [|entry rest IH]; intros st; simpl.
  - unfold ret. rewrite wrote_nothing. reflexivity.
  - unfold printLongEntryInfo. rewrite bind_bind, bind_lift.
    destruct (longLine w entry) as [line | p | ]; simpl; try reflexivity.
    rewrite bind_write, IH.
    destruct (rowsText w rest) as [rows | p | ]; simpl; try reflexivity.
    rewrite wrote_wrote, append_assoc. reflexivity.
Qed.

Lemma printOther_section (count : nat) (entry : entryInfo) (st : state) :
  printOther w config sortSlice count entry st
  = obind (sectionText w config sortSlice (1 <? count)%nat entry)
          (fun s => Returns (subsAfter w config sortSlice entry, wrote st s)).
Proof.
  unfold printOther, sectionText, bodyText, subsAfter, headerLine.
  destruct (1 <? count)%nat; destruct (formatLongList config); cbn [negb];
    unfold bind, write, lift, ret, obind.
  - destruct (blocksForSize entry (blockSize config)) as [total | p | ]; try reflexivity.
    rewrite printLongEntries_rows. unfold obind.
    destruct (rowsText w _) as [rows | p | ]; try reflexivity.
    unfold wrote; cbn [calls written stderr]. rewrite !append_assoc. reflexivity.
  - destruct (subEntries entry) as [|c cs]; cbn [map List.length Nat.ltb Nat.leb].
    + unfold wrote. rewrite append_nil_r. reflexivity.
    + unfold wrote; cbn [calls written stderr]. rewrite !append_assoc. reflexivity.
  - destruct (blocksForSize entry (blockSize config)) as [total | p | ]; try reflexivity.
    rewrite printLongEntries_rows. unfold obind.
    destruct (rowsText w _) as [rows | p | ]; try reflexivity.
    unfold wrote; cbn [calls written stderr]. rewrite !append_assoc. reflexivity.
  - destruct (subEntries entry) as [|c cs]; cbn [map List.length Nat.ltb Nat.leb].
    + rewrite wrote_nothing. reflexivity.
    + unfold wrote; cbn [calls written stderr]. rewrite ?append_assoc. reflexivity.
Qed.

Lemma joined_cons (first : bool) (s : string) (ss : list string) :
  joined first (s :: ss) = (if first then "" else newline) ++ s ++ joined false ss.
Proof.
  unfold joined, Join. destruct ss as [|s' ss]; simpl.
  - rewrite append_nil_r. reflexivity.
  - reflexivity.
Qed.

Lemma printOthers_sections (self : list entryInfo -> bool -> M unit) (count : nat)
      (others : list entryInfo) :
  forall first st,
    printOthers w config sortSlice self false count first others st
    = obind (sectionTexts w config sortSlice (1 <? count)%nat others)
            (fun ss => Returns (tt, wrote st (joined first ss))).
Proof.
  induction others as [|entry rest IH]; intros first st.
  - cbn [printOthers sectionTexts obind joined]. unfold ret.
    rewrite wrote_nothing. reflexivity.
  - cbn [printOthers sectionTexts].
    assert (Hsep : forall (k : unit -> M unit),
               bind (if first then ret tt else write newline) k st
               = k tt (wrote st (if first then "" else newline))).
    { intros k. destruct first; [rewrite bind_ret, wrote_nothing | rewrite bind_write];
        reflexivity. }
    rewrite Hsep. unfold bind at 1. rewrite printOther_section.
    destruct (sectionText w config sortSlice (1 <? count)%nat entry) as [s | p | ];
      cbn [obind]; try reflexivity.
    rewrite bind_ret, IH.
    destruct (sectionTexts w config sortSlice (1 <? count)%nat rest) as [ss | p | ];
      cbn [obind]; try reflexivity.
    rewrite !wrote_wrote, joined_cons. reflexivity.
Qed.

Lemma joined_first (ss : list string) : joined true ss = Join ss newline.
Proof. destruct ss; reflexivity. Qed.

Lemma printEntries_listing (fuel : nat) (entries : list entryInfo) (st : state) :
  printEntries w config sortSlice (S fuel) entries false st
  = obind (listingText w config sortSlice entries)
          (fun text => Returns (tt, wrote st text)).
Proof.
  cbn [printEntries]. unfold listingText. rewrite bind_lift.
  destruct (splitEntries entries [] []) as [[direct others] | p | ]; cbn [obind];
    try reflexivity.
  unfold directText.
  destruct (formatLongList config); cbn [negb andb].
  - unfold bind at 1. rewrite printLongEntries_rows.
    destruct (rowsText w direct) as [rows | p | ]; cbn [obind]; try reflexivity.
    rewrite printOthers_sections.
    destruct (sectionTexts w config sortSlice _ others) as [ss | p | ]; cbn [obind];
      try reflexivity.
    rewrite wrote_wrote, joined_first. reflexivity.
  - destruct direct as [|f fs]; cbn [map List.length Nat.ltb Nat.leb].
    + rewrite bind_ret, printOthers_sections.
      destruct (sectionTexts w config sortSlice _ others) as [ss | p | ]; cbn [obind];
        try reflexivity.
      rewrite joined_first. reflexivity.
    + rewrite bind_write, printOthers_sections.
      destruct (sectionTexts w config sortSlice _ others) as [ss | p | ]; cbn [obind];
        try reflexivity.
      rewrite wrote_wrote, joined_first. reflexivity.
Qed.

End LayoutProofs.

(** ** The roots of a run *)



Lemma rootsOf_fresh (w : World) (paths : list string) : Forall fresh (rootsOf w paths).
Proof.
  induction paths as [|p rest IH]; simpl; [constructor|].
  apply Forall_app. split; [|exact IH].
  destruct (fst (osStat w p)); constructor; [repeat split | constructor].
Qed.

Lemma rootsOf_unfetched (w : World) (paths : list string) :
  Forall unfetched (rootsOf w paths).
Proof.
  induction paths as [|p rest IH]; simpl; [constructor|].
  apply Forall_app. split; [|exact IH].
  destruct (fst (osStat w p)); constructor; [repeat split | constructor].
Qed.



(** ** Headers and separators *)




(** Two directories: a header each, one empty line between the sections. *)
Example ls_two_directories :
  exists st,
    main Sample.world Sample.short insertionSort 2 ["d"; "fruit"] initial = Returns (0, st) /\
    written st = "d:" ++ newline ++ "A.txt" ++ tab ++ tab ++ tab ++ "b.txt" ++ newline ++
                 newline ++
                 "fruit:" ++ newline ++ "apple" ++ tab ++ tab ++ tab ++ "Banana" ++ newline.
Proof. eexists. split; [vm_compute; reflexivity | reflexivity]. Qed.

(** A file and a directory: no empty line between the file list and the
    first section. *)
Example ls_file_and_directory :
  exists st,
    main Sample.world Sample.short insertionSort 2 ["f"; "d"] initial = Returns (0, st) /\
    written st = "f" ++ newline ++
                 "d:" ++ newline ++ "A.txt" ++ tab ++ tab ++ tab ++ "b.txt" ++ newline.
Proof. eexists. split; [vm_compute; reflexivity | reflexivity]. Qed.

(** The long listing of a file whose owner has no account. *)
Example ls_long_orphan :
  exists st,
    main Sample.world Sample.long insertionSort 1 ["orphan"] initial = Returns (0, st) /\
    written st = "-rw-r--r--" ++ tab ++ "1" ++ tab ++ "Unknown" ++ tab ++ "wheel" ++ tab ++
                 "12" ++ tab ++ "Jan  1  2024" ++ tab ++ "orphan" ++ newline.
Proof. eexists. split; [vm_compute; reflexivity | reflexivity]. Qed.

(** C9, as stated, fails: the owner column is the account's name as the
    account database gives it.  Where uid 0 belongs to an account that is
    itself named [0], the column of a file owned by uid 0 reads [0], the
    numeric id. *)
Lemma owner_column_counterexample :
  exists e st,
    fetchEntryInfo Sample.numbered 1 (rootsOf Sample.numbered ["f"]) false initial
    = Returns (([e], []), st) /\
    fst (LookupId Sample.numbered (GoInt.Itoa (uID e))) = Some (mkUser "0" "0") /\
    userName e = GoInt.Itoa (uID e) /\
    longLine Sample.numbered e
    = Returns ("-rw-r--r--" ++ tab ++ "1" ++ tab ++ "0" ++ tab ++ "wheel" ++ tab ++
               "12" ++ tab ++ "Jan  1  2024" ++ tab ++ "f").
Proof.
  do 2 eexists. split; [vm_compute; reflexivity|].
  split; [reflexivity|]. split; reflexivity.
Qed.

(** C9, amended: after [fetchEntryInfo] has returned on entries as
    [newEntryInfo] builds them, every entry of the tree holds the uid and gid
    that [Sys()] reports (-1 when it reports none), and its long-format line
    has, as owner column, the [Username] of the account that [user.LookupId]
    returned for the uid, printed as it is, or [Unknown] when the uid is -1
    or the lookup returned no account; the group column is the [Name] that
    [user.LookupGroupId] returned for the gid, or [Unknown] likewise. *)
Theorem long_listing_owner_group
        (w : World) (fuel : nat) (roots entries : list entryInfo) (recurse : bool)
        (st st' : state) (returned : list error) :
  Forall unfetched roots ->
  fetchEntryInfo w fuel roots recurse st = Returns ((entries, returned), st') ->
  Forall (everywhere (ownerGroupColumns w)) entries.
Proof.
  intros Hnew Hfetch.
  eapply fetchEntryInfo_columns; [exact Hfetch | exact Hnew].
Qed.

Lemma long_listing_owner_group_witness :
  exists entries returned st',
    fetchEntryInfo Sample.world 2 (rootsOf Sample.world ["d"; "orphan"]) false initial
    = Returns ((entries, returned), st') /\
    Forall (everywhere (ownerGroupColumns Sample.world)) entries.
Proof.
  do 3 eexists. split.
  - vm_compute. reflexivity.
  - eapply (long_listing_owner_group Sample.world 2 (rootsOf Sample.world ["d"; "orphan"])
                                      _ false initial).
    + repeat constructor.
    + vm_compute. reflexivity.
Defined.

(** The columns to display on the sample machine: uid 0 is [root], uid 1234
    has no account. *)
Example sample_owners :
  ownerOf Sample.world (Sample.fileOf "f" 0) = "root" /\
  ownerOf Sample.world (Sample.fileOf "orphan" 1234) = "Unknown" /\
  groupOf Sample.world (Sample.fileOf "orphan" 1234) = "wheel" /\
  ownerOf Sample.world (mkFileInfo "x" 3 420 (mkTime 2024 0) false None) = "Unknown".
Proof. repeat split. Qed.

(** * Further properties of the code *)

(** ** Display names *)

Lemma chars_append (a b : string) :
  list_ascii_of_string (a ++ b)
  = (list_ascii_of_string a ++ list_ascii_of_string b)%list.
Proof.
  induction a as [|c a IH]; simpl; [reflexivity | rewrite IH; reflexivity].
Qed.

Lemma chars_injective (a b : string) :
  list_ascii_of_string a = list_ascii_of_string b -> a = b.
Proof.
  intros H. rewrite <- (string_of_list_ascii_of_string a),
              <- (string_of_list_ascii_of_string b), H. reflexivity.
Qed.

Lemma prefix_empty (s : string) : String.prefix "" s = true.
Proof. destruct s; reflexivity. Qed.

Lemma Contains_space_cons (c : ascii) (s : string) :
  Contains (String c s) " " = (Ascii.eqb " " c || Contains s " ")%bool.
Proof.
  unfold Contains. cbn [String.index String.prefix].
  destruct (ascii_dec " " c) as [<- | Hne].
  - rewrite prefix_empty. reflexivity.
  - apply Ascii.eqb_neq in Hne. rewrite Hne. cbn [orb].
    destruct (String.index 0 " " s); reflexivity.
Qed.

Lemma Contains_space_existsb (s : string) :
  Contains s " " = existsb (Ascii.eqb " ") (list_ascii_of_string s).
Proof.
  induction s as [|c s IH]; [reflexivity|].
  rewrite Contains_space_cons, IH. reflexivity.
Qed.

(** [SafeName] wraps the path in single quotes exactly when one of its bytes
    is a space, and returns it unchanged otherwise. *)
Theorem SafeName_quotes_spaces (e : entryInfo) :
  SafeName e
  = if existsb (Ascii.eqb " ") (list_ascii_of_string (path e))
    then "'" ++ path e ++ "'"
    else path e.
Proof.
  unfold SafeName. rewrite Contains_space_existsb. reflexivity.
Qed.

(** Entries with different paths have different display names: quoting adds
    no collision, although quotes inside a name are not escaped. *)
Theorem SafeName_injective (e1 e2 : entryInfo) :
  SafeName e1 = SafeName e2 -> path e1 = path e2.
Proof.
  rewrite !SafeName_quotes_spaces.
  destruct (existsb (Ascii.eqb " ") (list_ascii_of_string (path e1))) eqn:E1;
    destruct (existsb (Ascii.eqb " ") (list_ascii_of_string (path e2))) eqn:E2;
    intros H.
  - apply (f_equal list_ascii_of_string) in H.
    rewrite !chars_append in H. cbn [list_ascii_of_string app] in H.
    injection H as H. apply app_inv_tail in H. apply chars_injective. exact H.
  - exfalso. rewrite <- H in E2.
    rewrite !chars_append, !existsb_app, E1 in E2.
    rewrite orb_true_r in E2. discriminate.
  - exfalso. rewrite H in E1.
    rewrite !chars_append, !existsb_app, E2 in E1.
    rewrite orb_true_r in E1. discriminate.
  - exact H.
Qed.

Lemma SafeName_injective_witness :
  path (plainFile "a b" 8) = path (plainFile "a b" 0).
Proof.
  apply (SafeName_injective (plainFile "a b" 8) (plainFile "a b" 0)). reflexivity.
Defined.

(** ** The error stream *)

Lemma complained_complained (st : state) (a b : string) :
  complained (complained st a) b = complained st (a ++ b).
Proof. unfold complained. simpl. rewrite append_assoc. reflexivity. Qed.

Lemma complained_nothing (st : state) : complained st "" = st.
Proof. destruct st. unfold complained. simpl. rewrite append_nil_r. reflexivity. Qed.

Lemma errorLines_app (a b : list error) :
  errorLines (a ++ b) = errorLines a ++ errorLines b.
Proof.
  induction a as [|err a IH]; simpl; [reflexivity|].
  rewrite IH, !append_assoc. reflexivity.
Qed.

Lemma printErrors_complains (errs : list error) :
  forall st, printErrors errs st = Returns (tt, complained st (errorLines errs)).
Proof.
  induction errs as [|err rest IH]; intros st.
  - cbn [printErrors errorLines]. unfold ret. rewrite complained_nothing. reflexivity.
  - cbn [printErrors errorLines]. unfold bind, ewrite. rewrite IH.
    unfold complained. cbn [calls written stderr]. rewrite !append_assoc. reflexivity.
Qed.

(** [printErrors] never fails; it writes one line per error, in the order of
    the list, to the error stream, a [*fs.PathError] as
    [cannot access '<path>': <cause>] and any other error as its message;
    the listing and the record of calls are left as they were. *)
Theorem printErrors_lines (errs : list error) (st : state) :
  exists st',
    printErrors errs st = Returns (tt, st') /\
    stderr st' = stderr st ++ errorLines errs /\
    written st' = written st /\ calls st' = calls st.
Proof.
  eexists. split; [apply printErrors_complains|]. repeat split.
Qed.

(** ** What the walk leaves untouched *)

Lemma called_called (st : state) (a b : list event) :
  called (called st a) b = called st (a ++ b).
Proof. unfold called. simpl. rewrite app_assoc. reflexivity. Qed.

Lemma called_nothing (st : state) : called st [] = st.
Proof. destruct st. unfold called. simpl. rewrite app_nil_r. reflexivity. Qed.

(** A computation that only makes calls. *)
Section Quiet.

Variable w : World.

Lemma fetchStat_quiet (e e1 : entryInfo) (st st1 : state) :
  fetchStat e st = Returns (e1, st1) -> st1 = st.
Proof.
  unfold fetchStat, bind, lift, promoted, ret.
  destruct (fileInfo e) as [fi|]; [|discriminate].
  destruct (Sys fi); intros H; injection H as _ <-; reflexivity.
Qed.

Lemma fetchUser_quiet (e e' : entryInfo) (errs errs' : list error) (st st' : state) :
  fetchUser w e errs st = Returns ((e', errs'), st') -> exists evs, st' = called st evs.
Proof.
  unfold fetchUser, bind, emit, ret.
  destruct (uID e =? -1).
  - intros H; injection H as _ _ <-. exists []. rewrite called_nothing. reflexivity.
  - destruct (LookupId w (GoInt.Itoa (uID e))) as [userInfo err].
    intros H; injection H as _ _ <-. eexists. reflexivity.
Qed.

Lemma fetchGroup_quiet (e e' : entryInfo) (errs errs' : list error) (st st' : state) :
  fetchGroup w e errs st = Returns ((e', errs'), st') -> exists evs, st' = called st evs.
Proof.
  unfold fetchGroup, bind, emit, ret.
  destruct (gID e =? -1).
  - intros H; injection H as _ _ <-. exists []. rewrite called_nothing. reflexivity.
  - destruct (LookupGroupId w (GoInt.Itoa (gID e))) as [groupInfo err].
    intros H; injection H as _ _ <-. eexists. reflexivity.
Qed.

Lemma fetchChildren_quiet (dirEntries : list DirEntry) :
  forall errs st subs errs' st',
    fetchChildren dirEntries errs st = Returns ((subs, errs'), st') ->
    st' = called st (map (fun d => EvInfo (deName d)) dirEntries).
Proof.
  induction dirEntries as [|d rest IH]; intros errs st subs errs' st'; simpl.
  - unfold ret. intros H; injection H as _ _ <-. rewrite called_nothing. reflexivity.
  - unfold bind, emit. destruct (deInfo d) as [dirInfo err].
    destruct (fetchChildren rest (appendErr errs err) _)
      as [[[subs0 errs0] st0] | p | ] eqn:E; try discriminate.
    unfold ret. intros H; injection H as _ _ <-.
    apply IH in E. rewrite E. unfold called. simpl. rewrite <- app_assoc. reflexivity.
Qed.

Section QuietLoop.

Variable self : list entryInfo -> bool -> M (list entryInfo * list error).
Hypothesis self_quiet :
  forall l r st l' errs st',
    self l r st = Returns ((l', errs), st') -> exists evs, st' = called st evs.

Lemma fetchDir_quiet (recurse : bool) (e e' : entryInfo) (errs errs' : list error)
      (st st' : state) :
  fetchDir w self recurse e errs st = Returns ((e', errs'), st') ->
  exists evs, st' = called st evs.
Proof.
  unfold fetchDir, bind, lift, promoted, emit, ret.
  destruct (fileInfo e) as [fi|]; [|discriminate].
  destruct (IsDir fi).
  - destruct (osReadDir w (path e)) as [dirEntries err].
    destruct (fetchChildren dirEntries (appendErr errs err) _)
      as [[[subs errs1] st1] | p | ] eqn:EC; try discriminate.
    destruct (self subs recurse st1) as [[[subs' returned] st2] | p | ] eqn:ES;
      try discriminate.
    intros H; injection H as _ _ <-.
    apply fetchChildren_quiet in EC. apply self_quiet in ES. destruct ES as [evs ->].
    rewrite EC. change (mkState (calls st ++ [EvReadDir (path e)])%list (written st) (stderr st))
      with (called st [EvReadDir (path e)]).
    rewrite !called_called. eexists. reflexivity.
  - intros H; injection H as _ _ <-. exists []. rewrite called_nothing. reflexivity.
Qed.

Lemma fetchEntry_quiet (recurse : bool) (e e' : entryInfo) (errs errs' : list error)
      (st st' : state) :
  fetchEntry w self recurse e errs st = Returns ((e', errs'), st') ->
  exists evs, st' = called st evs.
Proof.
  unfold fetchEntry, bind.
  destruct (fetchStat e st) as [[e1 st1] | p | ] eqn:E1; try discriminate.
  destruct (fetchUser w e1 errs st1) as [[[e2 errs2] st2] | p | ] eqn:E2; try discriminate.
  destruct (fetchGroup w e2 errs2 st2) as [[[e3 errs3] st3] | p | ] eqn:E3; try discriminate.
  intros E4.
  apply fetchStat_quiet in E1. subst st1.
  apply fetchUser_quiet in E2. destruct E2 as [ev2 ->].
  apply fetchGroup_quiet in E3. destruct E3 as [ev3 ->].
  apply fetchDir_quiet in E4. destruct E4 as [ev4 ->].
  rewrite !called_called. eexists. reflexivity.
Qed.

Lemma fetchLoop_quiet (recurse : bool) (entries : list entryInfo) :
  forall errs st entries' errs' st',
    fetchLoop w self recurse entries errs st = Returns ((entries', errs'), st') ->
    exists evs, st' = called st evs.
Proof.
  induction entries as [|e rest IH]; intros errs st entries' errs' st'; simpl.
  - unfold ret. intros H; injection H as _ _ <-. exists []. rewrite called_nothing.
    reflexivity.
  - unfold bind.
    destruct (fetchEntry w self recurse e errs st) as [[[e' errs1] st1] | p | ] eqn:EE;
      try discriminate.
    destruct (fetchLoop w self recurse rest errs1 st1)
      as [[[rest' errs2] st2] | p | ] eqn:EL; try discriminate.
    unfold ret. intros H; injection H as _ _ <-.
    apply fetchEntry_quiet in EE. destruct EE as [ev1 ->].
    apply IH in EL. destruct EL as [ev2 ->].
    rewrite called_called. eexists. reflexivity.
Qed.

End QuietLoop.

Lemma fetchEntryInfo_quiet (fuel : nat) :
  forall entries recurse st entries' errs st',
    fetchEntryInfo w fuel entries recurse st = Returns ((entries', errs), st') ->
    exists evs, st' = called st evs.
Proof.
  induction fuel as [|fuel IH]; intros entries recurse st entries' errs st'; simpl;
    [discriminate|].
  unfold bind.
  destruct (fetchLoop w (fetchEntryInfo w fuel) recurse entries [] st)
    as [[[es acc] st1] | p | ] eqn:EL; try discriminate.
  unfold ret. intros H; injection H as _ _ <-.
  eapply fetchLoop_quiet; [exact IH | exact EL].
Qed.

End Quiet.

(** ** The exit status of [ls] *)

Lemma statPaths_result (w : World) (paths : list string) :
  forall entries errs st,
    statPaths w paths entries errs st
    = Returns (((entries ++ rootsOf w paths)%list, (errs ++ statErrors w paths)%list),
               called st (map EvStat paths)).
Proof.
  induction paths as [|p rest IH]; intros entries errs st.
  - cbn [statPaths rootsOf statErrors flat_map map]. unfold ret.
    rewrite !app_nil_r, called_nothing. reflexivity.
  - cbn [statPaths rootsOf statErrors flat_map map]. unfold bind, emit.
    destruct (osStat w p) as [info err]. cbn [fst snd].
    rewrite IH. unfold called. cbn [calls written stderr].
    destruct info as [fi|]; destruct err as [x|]; cbn [appendErr];
      rewrite <- ?app_assoc; reflexivity.
Qed.

Lemma printErrors_if_any (errs : list error) (st : state) :
  (if (0 <? List.length errs)%nat then printErrors errs else ret tt) st
  = Returns (tt, complained st (errorLines errs)).
Proof.
  destruct errs as [|err rest].
  - cbn. unfold ret. rewrite complained_nothing. reflexivity.
  - cbn [List.length Nat.ltb Nat.leb]. apply printErrors_complains.
Qed.

Lemma exit_code (errs : list error) (st : state) :
  (if (0 <? List.length errs)%nat then ret 2 else ret 0) st
  = Returns (match errs with [] => 0 | _ => 2 end, st).
Proof. destruct errs; reflexivity. Qed.

(** When [ls] returns, its exit status is 2 if [os.Stat] failed on a
    command-line path or the final [Flush] failed, and 0 otherwise: no other
    failure reaches the status.  The error stream then holds one line per
    failed [Stat], in the order of the paths, followed by the line of the
    flush failure. *)
Theorem main_exit_status
        (w : World) (config : Config)
        (sortSlice : forall A : Type, (A -> A -> bool) -> list A -> list A)
        (fuel : nat) (paths : list string) (st0 st : state) (code : Z) :
  main w config sortSlice fuel paths st0 = Returns (code, st) ->
  exists flushErrs,
    flushErrs = match Flush w (written st) with Some err => [err] | None => [] end /\
    stderr st = stderr st0 ++ errorLines (statErrors w paths) ++ errorLines flushErrs /\
    code = match (statErrors w paths ++ flushErrs)%list with [] => 0 | _ => 2 end.
Proof.
  unfold main. unfold bind at 1. rewrite statPaths_result. cbn [app].
  unfold bind at 1.
  destruct (fetchEntryInfo w fuel (rootsOf w paths) false _)
    as [[[entries returned] st1] | p | ] eqn:EF; try discriminate.
  pose proof (fetchEntryInfo_returns_nil _ _ _ _ _ _ _ _ EF) as ->.
  destruct (fetchEntryInfo_quiet _ _ _ _ _ _ _ _ EF) as [evs ->].
  destruct fuel as [|n]; [discriminate EF|].
  rewrite app_nil_r.
  unfold bind at 1. rewrite printErrors_if_any.
  unfold bind at 1. rewrite printEntries_listing.
  destruct (listingText w config sortSlice entries) as [text | p | ]; cbn [obind];
    try discriminate.
  unfold bind at 1. unfold flushWriter.
  cbn [written wrote complained called].
  destruct (Flush w (written st0 ++ text)) as [err|] eqn:EFl.
  - unfold bind at 1. unfold bind at 1. rewrite printErrors_complains. unfold ret at 1.
    rewrite exit_code. intros H; injection H as <- <-.
    exists [err]. cbn [written stderr calls wrote complained called].
    rewrite EFl. split; [reflexivity|]. split; [|reflexivity].
    rewrite !append_assoc. reflexivity.
  - unfold bind at 1. unfold ret at 1.
    rewrite exit_code. intros H; injection H as <- <-.
    exists []. cbn [written stderr calls wrote complained called].
    rewrite EFl. split; [reflexivity|]. split.
    + cbn [errorLines]. rewrite append_nil_r. reflexivity.
    + rewrite app_nil_r. reflexivity.
Qed.

Lemma main_exit_status_witness :
  exists st,
    main Sample.world Sample.short insertionSort 2 ["missing"; "d"] initial
    = Returns (2, st) /\
    exists flushErrs,
      flushErrs = match Flush Sample.world (written st) with
                  | Some err => [err]
                  | None => []
                  end /\
      stderr st = stderr initial ++ errorLines (statErrors Sample.world ["missing"; "d"]) ++
                  errorLines flushErrs /\
      2 = match (statErrors Sample.world ["missing"; "d"] ++ flushErrs)%list with
          | [] => 0
          | _ => 2
          end.
Proof.
  eexists. split.
  - vm_compute. reflexivity.
  - apply (main_exit_status Sample.world Sample.short insertionSort 2 ["missing"; "d"]
                            initial).
    vm_compute. reflexivity.
Defined.

(** ** Block totals *)

Lemma sumBlocks_from (entries : list entryInfo) :
  forall a,
    fold_left (fun total entry => GoInt.toUint (total + numBlocks entry)) entries
              (a mod GoInt.uintMod)
    = (a + blockSum entries) mod GoInt.uintMod.
Proof.
  unfold blockSum, GoInt.toUint.
  induction entries as [|e rest IH]; intros a; simpl.
  - rewrite Z.add_0_r. reflexivity.
  - rewrite Zplus_mod_idemp_l, IH. f_equal. lia.
Qed.

Lemma sumBlocks_mod (entries : list entryInfo) :
  sumBlocks entries = blockSum entries mod GoInt.uintMod.
Proof.
  unfold sumBlocks. change 0 with (0 mod GoInt.uintMod) at 1.
  rewrite sumBlocks_from. reflexivity.
Qed.

(** For a directory and a block size of at least 512, the [total] of the long
    listing is the sum of the children's block counts, reduced modulo 2^64,
    divided by [blockSize / 512]; the directory's own block count plays no
    part. *)
Theorem blocksForSize_directory (e : entryInfo) (fi : FileInfo) (blockSize : Z) :
  fileInfo e = Some fi -> IsDir fi = true -> 512 <= blockSize ->
  blocksForSize e blockSize
  = Returns ((blockSum (subEntries e) mod GoInt.uintMod) / (blockSize / 512)).
Proof.
  intros Hfi Hdir Hbs.
  rewrite (blocksForSize_udiv e fi blockSize Hfi). unfold blockCount. rewrite Hdir.
  rewrite sumBlocks_mod. apply udiv_returns.
  pose proof (factor_zero_iff blockSize ltac:(lia)) as Hz.
  intros H. apply Hz in H. lia.
Qed.

Lemma blocksForSize_directory_witness :
  blocksForSize (directory "d" [plainFile "a" 6; plainFile "b" 8]) 1024
  = Returns ((blockSum [plainFile "a" 6; plainFile "b" 8] mod GoInt.uintMod) / (1024 / 512)).
Proof.
  apply (blocksForSize_directory (directory "d" [plainFile "a" 6; plainFile "b" 8])
                                 (mkFileInfo "d" 4096 2147484141 (mkTime 2024 0) true None)
                                 1024).
  - reflexivity.
  - reflexivity.
  - lia.
Defined.

(** ** Direct files and other entries *)

Lemma isDirectFile_directFile (e : entryInfo) :
  splittable e -> isDirectFile e = Returns (directFile e).
Proof.
  unfold splittable, hasInfo, isDirectFile, directFile, promoted. intros H.
  destruct (directRequest e).
  - destruct (fileInfo e) as [fi|]; [reflexivity|]. exfalso. apply H; reflexivity.
  - destruct (fileInfo e) as [fi|]; reflexivity.
Qed.

Lemma splitEntries_from (entries : list entryInfo) :
  Forall splittable entries ->
  forall direct other,
    splitEntries entries direct other
    = Returns ((direct ++ filter directFile entries)%list,
               (other ++ filter (fun e => negb (directFile e)) entries)%list).
Proof.
  induction 1 as [|e rest He Hrest IH]; intros direct other; cbn [splitEntries filter].
  - rewrite !app_nil_r. reflexivity.
  - rewrite (isDirectFile_directFile e He).
    destruct (directFile e); cbn [negb]; rewrite IH, <- app_assoc; reflexivity.
Qed.

(** [printEntries] splits its entries in two, keeping their order: the
    directly requested entries that are not directories, and all the others
    (directories, and entries found in a directory).  The split succeeds
    whenever every direct request carries file information. *)
Theorem splitEntries_partition (entries : list entryInfo) :
  Forall splittable entries ->
  splitEntries entries [] []
  = Returns (filter directFile entries, filter (fun e => negb (directFile e)) entries).
Proof.
  intros H. rewrite (splitEntries_from entries H). reflexivity.
Qed.

Lemma splitEntries_partition_witness :
  splitEntries [Sample.root "f" (Sample.fileOf "f" 0); Sample.root "d" (Sample.dirOf "d");
                plainFile "x" 8] [] []
  = Returns (filter directFile
                    [Sample.root "f" (Sample.fileOf "f" 0); Sample.root "d" (Sample.dirOf "d");
                     plainFile "x" 8],
             filter (fun e => negb (directFile e))
                    [Sample.root "f" (Sample.fileOf "f" 0); Sample.root "d" (Sample.dirOf "d");
                     plainFile "x" 8]).
Proof.
  apply (splitEntries_partition
           [Sample.root "f" (Sample.fileOf "f" 0); Sample.root "d" (Sample.dirOf "d");
            plainFile "x" 8]).
  repeat constructor; intros _; discriminate.
Defined.

(** A direct request without file information stops the split with a nil
    dereference. *)
Lemma splitEntries_nil_info (entries : list entryInfo) :
  forall direct other,
    Exists (fun e => directRequest e = true /\ fileInfo e = None) entries ->
    exists p, splitEntries entries direct other = Panics p.
Proof.
  induction entries as [|e rest IH]; intros direct other Hex.
  - inversion Hex.
  - cbn [splitEntries]. unfold isDirectFile, promoted.
    destruct (directRequest e) eqn:Ed.
    + destruct (fileInfo e) as [fi|] eqn:Efi.
      * inversion Hex as [? ? [_ Hnone] | ? ? Hrest]; subst; [congruence|].
        destruct (negb (IsDir fi)); apply IH; exact Hrest.
      * eexists. reflexivity.
    + inversion Hex as [? ? [Hd _] | ? ? Hrest]; subst; [congruence|].
      apply IH; exact Hrest.
Qed.

(** ** When printing returns *)

Section PrintTotal.

Variable w : World.
Variable config : Config.
Variable sortSlice : forall A : Type, (A -> A -> bool) -> list A -> list A.

Lemma sectionTexts_short (withHeader : bool) (others : list entryInfo) :
  formatLongList config = false ->
  exists ss, sectionTexts w config sortSlice withHeader others = Returns ss.
Proof.
  intros Hshort. induction others as [|e rest [ss IH]]; cbn [sectionTexts].
  - eexists. reflexivity.
  - unfold sectionText, bodyText. rewrite Hshort.
    destruct (subEntries e); cbn [obind]; rewrite IH; cbn [obind]; eexists; reflexivity.
Qed.

(** In short mode [printEntries] returns whenever every direct request
    carries file information: it needs nothing else from the entries, and it
    only appends to the listing. *)
Theorem printEntries_short_returns (n : nat) (entries : list entryInfo) (st : state) :
  formatLongList config = false ->
  Forall splittable entries ->
  exists text,
    printEntries w config sortSlice (S n) entries false st = Returns (tt, wrote st text).
Proof.
  intros Hshort Hall.
  rewrite printEntries_listing. unfold listingText.
  rewrite (splitEntries_from entries Hall). cbn [obind app].
  unfold directText. rewrite Hshort.
  destruct (sectionTexts_short (1 <? List.length entries)%nat
                               (filter (fun e => negb (directFile e)) entries) Hshort)
    as [ss Hss].
  destruct (filter directFile entries); cbn [obind]; rewrite Hss; cbn [obind];
    eexists; reflexivity.
Qed.

Lemma rowsText_returns (entries : list entryInfo) :
  Forall hasInfo entries -> exists rows, rowsText w entries = Returns rows.
Proof.
  induction 1 as [|e rest He Hrest [rows IH]]; cbn [rowsText].
  - eexists. reflexivity.
  - unfold hasInfo in He. destruct (fileInfo e) as [fi|] eqn:Efi; [|contradiction].
    rewrite (longLine_columns w e fi Efi). cbn [obind]. rewrite IH. cbn [obind].
    eexists. reflexivity.
Qed.

Lemma blocksForSize_small (e : entryInfo) (bs : Z) :
  hasInfo e -> 0 <= bs < 512 -> blocksForSize e bs = Panics DivideByZero.
Proof.
  unfold hasInfo. intros He Hbs.
  destruct (fileInfo e) as [fi|] eqn:Efi; [|contradiction].
  rewrite (blocksForSize_udiv e fi bs Efi).
  replace (bs / 512) with 0; [reflexivity|].
  symmetry. apply Z.div_small. lia.
Qed.

(** In long mode with a block size below 512 ([--block-size] accepts it),
    listing anything but directly requested plain files panics with a
    division by zero. *)
Theorem printEntries_long_small_block (n : nat) (entries : list entryInfo) (st : state) :
  formatLongList config = true ->
  0 <= blockSize config < 512 ->
  Forall hasInfo entries ->
  existsb (fun e => negb (directFile e)) entries = true ->
  printEntries w config sortSlice (S n) entries false st = Panics DivideByZero.
Proof.
  intros Hlong Hbs Hall Hex.
  rewrite printEntries_listing. unfold listingText.
  assert (Hsplit : Forall splittable entries).
  { eapply Forall_impl; [|exact Hall]. intros e He _. exact He. }
  rewrite (splitEntries_from entries Hsplit). cbn [obind app].
  unfold directText. rewrite Hlong.
  destruct (rowsText_returns (filter directFile entries)) as [rows Hrows].
  { apply Forall_forall. intros e He. apply filter_In in He.
    rewrite Forall_forall in Hall. apply Hall. apply He. }
  rewrite Hrows. cbn [obind].
  apply existsb_exists in Hex. destruct Hex as (e & Hin & Hother).
  assert (Hin' : In e (filter (fun e => negb (directFile e)) entries))
    by (apply filter_In; split; assumption).
  destruct (filter (fun e => negb (directFile e)) entries) as [|o others] eqn:Ef;
    [contradiction|].
  assert (Ho : hasInfo o).
  { rewrite Forall_forall in Hall. apply Hall.
    assert (Hino : In o (filter (fun e => negb (directFile e)) entries))
      by (rewrite Ef; left; reflexivity).
    apply filter_In in Hino. apply Hino. }
  cbn [sectionTexts]. unfold sectionText, bodyText. rewrite Hlong.
  rewrite (blocksForSize_small o (blockSize config) Ho Hbs). reflexivity.
Qed.

End PrintTotal.

Lemma printEntries_short_returns_witness :
  exists text,
    printEntries Sample.world Sample.short insertionSort 1
                 [Sample.root "f" (Sample.fileOf "f" 0); directory "d" [plainFile "x y" 8]]
                 false initial
    = Returns (tt, wrote initial text).
Proof.
  apply (printEntries_short_returns Sample.world Sample.short insertionSort 0).
  - reflexivity.
  - repeat constructor; intros _; discriminate.
Defined.

Lemma printEntries_long_small_block_witness :
  printEntries Sample.world (mkConfig 100 true) insertionSort 1
               [Sample.root "f" (Sample.fileOf "f" 0); directory "d" [plainFile "x" 8]]
               false initial
  = Panics DivideByZero.
Proof.
  apply (printEntries_long_small_block Sample.world (mkConfig 100 true) insertionSort 0).
  - reflexivity.
  - simpl. lia.
  - repeat constructor; discriminate.
  - reflexivity.
Defined.

(** ** The shape of the fetched tree *)

Section Shape.

Variable w : World.

Lemma fetchStat_same (e e1 : entryInfo) (st st1 : state) :
  fetchStat e st = Returns (e1, st1) ->
  path e1 = path e /\ fileInfo e1 = fileInfo e /\ directRequest e1 = directRequest e /\
  subEntries e1 = subEntries e.
Proof.
  unfold fetchStat, bind, lift, promoted, ret.
  destruct (fileInfo e) as [fi|] eqn:Efi; [|discriminate].
  destruct (Sys fi); intros H; injection H as <- _; cbn; rewrite ?Efi; repeat split.
Qed.

Lemma fetchUser_same (e e' : entryInfo) (errs errs' : list error) (st st' : state) :
  fetchUser w e errs st = Returns ((e', errs'), st') ->
  path e' = path e /\ fileInfo e' = fileInfo e /\ directRequest e' = directRequest e /\
  subEntries e' = subEntries e.
Proof.
  unfold fetchUser, bind, emit, ret.
  destruct (uID e =? -1); [|destruct (LookupId w _)];
    intros H; injection H as <- _ _; repeat split.
Qed.

Lemma fetchGroup_same (e e' : entryInfo) (errs errs' : list error) (st st' : state) :
  fetchGroup w e errs st = Returns ((e', errs'), st') ->
  path e' = path e /\ fileInfo e' = fileInfo e /\ directRequest e' = directRequest e /\
  subEntries e' = subEntries e.
Proof.
  unfold fetchGroup, bind, emit, ret.
  destruct (gID e =? -1); [|destruct (LookupGroupId w _)];
    intros H; injection H as <- _ _; repeat split.
Qed.

Lemma fetchChildren_names (dirEntries : list DirEntry) :
  forall errs st subs errs' st',
    fetchChildren dirEntries errs st = Returns ((subs, errs'), st') ->
    map path subs = map deName dirEntries.
Proof.
  induction dirEntries as [|d rest IH]; intros errs st subs errs' st'; simpl.
  - unfold ret. intros H; injection H as <- _ _. reflexivity.
  - unfold bind, emit. destruct (deInfo d) as [dirInfo err].
    destruct (fetchChildren rest (appendErr errs err) _)
      as [[[subs0 errs0] st0] | p | ] eqn:E; try discriminate.
    unfold ret. intros H; injection H as <- _ _.
    cbn. f_equal. eapply IH. exact E.
Qed.

(** What the directory step does to an entry. *)
Lemma fetchDir_children
      (self : list entryInfo -> bool -> M (list entryInfo * list error))
      (recurse : bool) (e e' : entryInfo) (errs errs' : list error) (st st' : state) :
  fetchDir w self recurse e errs st = Returns ((e', errs'), st') ->
  path e' = path e /\ fileInfo e' = fileInfo e /\ directRequest e' = directRequest e /\
  exists fi,
    fileInfo e = Some fi /\
    if IsDir fi
    then exists subs errsA stA errsB stB returned stC,
        fetchChildren (fst (osReadDir w (path e))) errsA stA = Returns ((subs, errsB), stB) /\
        self subs recurse stB = Returns ((subEntries e', returned), stC)
    else subEntries e' = subEntries e.
Proof.
  unfold fetchDir, bind, lift, promoted, emit, ret.
  destruct (fileInfo e) as [fi|] eqn:Efi; [|discriminate].
  destruct (IsDir fi) eqn:Edir.
  - destruct (osReadDir w (path e)) as [dirEntries err] eqn:ER.
    destruct (fetchChildren dirEntries (appendErr errs err) _)
      as [[[subs errs1] st1] | p | ] eqn:EC; try discriminate.
    destruct (self subs recurse st1) as [[[subs' returned] st2] | p | ] eqn:ES;
      try discriminate.
    intros H; injection H as <- _ _. cbn. rewrite Efi. repeat split.
    exists fi. split; [reflexivity|]. rewrite Edir.
    do 7 eexists. split; [exact EC | exact ES].
  - intros H; injection H as <- _ _. rewrite Efi. repeat split.
    exists fi. split; [reflexivity|]. rewrite Edir. reflexivity.
Qed.

Lemma fetchEntry_shape
      (self : list entryInfo -> bool -> M (list entryInfo * list error))
      (recurse : bool) (e e' : entryInfo) (errs errs' : list error) (st st' : state) :
  fetchEntry w self recurse e errs st = Returns ((e', errs'), st') ->
  path e' = path e /\ fileInfo e' = fileInfo e /\ directRequest e' = directRequest e /\
  exists fi,
    fileInfo e = Some fi /\
    if IsDir fi
    then exists subs errsA stA errsB stB returned stC,
        fetchChildren (fst (osReadDir w (path e))) errsA stA = Returns ((subs, errsB), stB) /\
        self subs recurse stB = Returns ((subEntries e', returned), stC)
    else subEntries e' = subEntries e.
Proof.
  unfold fetchEntry, bind.
  destruct (fetchStat e st) as [[e1 st1] | p | ] eqn:E1; try discriminate.
  destruct (fetchUser w e1 errs st1) as [[[e2 errs2] st2] | p | ] eqn:E2; try discriminate.
  destruct (fetchGroup w e2 errs2 st2) as [[[e3 errs3] st3] | p | ] eqn:E3; try discriminate.
  intros E4.
  apply fetchStat_same in E1. destruct E1 as (P1 & F1 & D1 & S1).
  apply fetchUser_same in E2. destruct E2 as (P2 & F2 & D2 & S2).
  apply fetchGroup_same in E3. destruct E3 as (P3 & F3 & D3 & S3).
  apply fetchDir_children in E4. destruct E4 as (P4 & F4 & D4 & fi & Hfi & Hsub).
  assert (HP : path e3 = path e) by congruence.
  assert (HF : fileInfo e3 = fileInfo e) by congruence.
  split; [congruence|]. split; [congruence|]. split; [congruence|].
  exists fi. split; [congruence|].
  destruct (IsDir fi).
  - rewrite HP in Hsub. exact Hsub.
  - congruence.
Qed.

Section ShapeLoop.

Variable self : list entryInfo -> bool -> M (list entryInfo * list error).
Hypothesis self_shape :
  forall l r st l' errs st',
    self l r st = Returns ((l', errs), st') ->
    Forall fresh l ->
    map path l' = map path l /\ Forall (everywhere (childrenAsRead w)) l'.

Lemma fetchLoop_shape (recurse : bool) (entries : list entryInfo) :
  forall errs st entries' errs' st',
    fetchLoop w self recurse entries errs st = Returns ((entries', errs'), st') ->
    Forall fresh entries ->
    map path entries' = map path entries /\
    map fileInfo entries' = map fileInfo entries /\
    map directRequest entries' = map directRequest entries /\
    Forall (everywhere (childrenAsRead w)) entries'.
Proof.
  induction entries as [|e rest IH]; intros errs st entries' errs' st'; simpl.
  - unfold ret. intros H _; injection H as <- _ _. repeat split. constructor.
  - unfold bind.
    destruct (fetchEntry w self recurse e errs st)
      as [[[e' errs1] st1] | p | ] eqn:EE; try discriminate.
    destruct (fetchLoop w self recurse rest errs1 st1)
      as [[[rest' errs2] st2] | p | ] eqn:EL; try discriminate.
    unfold ret. intros H Hfresh; injection H as <- _ _.
    inversion Hfresh as [|? ? (Hu & Hg & Hs) Hrest]; subst.
    destruct (IH _ _ _ _ _ EL Hrest) as (IP & IF & ID & IE).
    apply fetchEntry_shape in EE. destruct EE as (HP & HF & HD & fi & Hfi & Hsub).
    cbn [map]. rewrite HP, HF, HD, IP, IF, ID. repeat split.
    constructor; [|exact IE].
    destruct (IsDir fi) eqn:Edir.
    + destruct Hsub as (subs & errsA & stA & errsB & stB & returned & stC & HC & HS).
      pose proof (fetchChildren_fresh _ _ _ _ _ _ HC) as Hsubs.
      destruct (self_shape _ _ _ _ _ _ HS Hsubs) as (Hnames & Hdeep).
      constructor; [|exact Hdeep].
      unfold childrenAsRead. rewrite HF, Hfi, Edir, HP, Hnames.
      eapply fetchChildren_names. exact HC.
    + constructor.
      * unfold childrenAsRead. rewrite HF, Hfi, Edir. congruence.
      * rewrite Hsub, Hs. constructor.
Qed.

End ShapeLoop.

Lemma fetchEntryInfo_shape (fuel : nat) :
  forall entries recurse st entries' errs st',
    fetchEntryInfo w fuel entries recurse st = Returns ((entries', errs), st') ->
    Forall fresh entries ->
    map path entries' = map path entries /\
    map fileInfo entries' = map fileInfo entries /\
    map directRequest entries' = map directRequest entries /\
    Forall (everywhere (childrenAsRead w)) entries'.
Proof.
  induction fuel as [|fuel IH]; intros entries recurse st entries' errs st'; simpl;
    [discriminate|].
  unfold bind.
  destruct (fetchLoop w (fetchEntryInfo w fuel) recurse entries [] st)
    as [[[es acc] st1] | p | ] eqn:EL; try discriminate.
  unfold ret. intros H Hfresh; injection H as <- _ _.
  eapply fetchLoop_shape; [|exact EL | exact Hfresh].
  intros l r st0 l' errs0 st0' Hself Hl.
  destruct (IH _ _ _ _ _ _ Hself Hl) as (HP & _ & _ & HE). split; assumption.
Qed.

End Shape.

Lemma fetchLoop_same (w : World)
      (self : list entryInfo -> bool -> M (list entryInfo * list error)) (recurse : bool)
      (entries : list entryInfo) :
  forall errs st entries' errs' st',
    fetchLoop w self recurse entries errs st = Returns ((entries', errs'), st') ->
    map path entries' = map path entries /\
    map fileInfo entries' = map fileInfo entries /\
    map directRequest entries' = map directRequest entries.
Proof.
  induction entries as [|e rest IH]; intros errs st entries' errs' st'; simpl.
  - unfold ret. intros H; injection H as <- _ _. repeat split.
  - unfold bind.
    destruct (fetchEntry w self recurse e errs st)
      as [[[e' errs1] st1] | p | ] eqn:EE; try discriminate.
    destruct (fetchLoop w self recurse rest errs1 st1)
      as [[[rest' errs2] st2] | p | ] eqn:EL; try discriminate.
    unfold ret. intros H; injection H as <- _ _.
    destruct (IH _ _ _ _ _ EL) as (IP & IF & ID).
    apply fetchEntry_shape in EE. destruct EE as (HP & HF & HD & _).
    cbn [map]. rewrite HP, HF, HD, IP, IF, ID. repeat split.
Qed.

(** When [fetchEntryInfo] returns, the slice holds the same entries as
    before, in the same order: none is dropped, added or moved, and each
    keeps its path, its file information and its [directRequest] flag; all of
    them have file information; nothing was printed. *)
Theorem fetchEntryInfo_keeps_entries
        (w : World) (fuel : nat) (entries entries' : list entryInfo) (recurse : bool)
        (st st' : state) (errs : list error) :
  fetchEntryInfo w fuel entries recurse st = Returns ((entries', errs), st') ->
  map path entries' = map path entries /\
  map fileInfo entries' = map fileInfo entries /\
  map directRequest entries' = map directRequest entries /\
  Forall hasInfo entries' /\
  written st' = written st /\ stderr st' = stderr st.
Proof.
  intros Hfetch.
  destruct (fetchEntryInfo_quiet _ _ _ _ _ _ _ _ Hfetch) as [evs Hst].
  destruct fuel as [|fuel]; [discriminate Hfetch|].
  cbn [fetchEntryInfo] in Hfetch. unfold bind in Hfetch.
  destruct (fetchLoop w (fetchEntryInfo w fuel) recurse entries [] st)
    as [[[es acc] st1] | p | ] eqn:EL; try discriminate.
  unfold ret in Hfetch. injection Hfetch as <- _ _.
  destruct (fetchLoop_same _ _ _ _ _ _ _ _ _ EL) as (HP & HF & HD).
  split; [exact HP|]. split; [exact HF|]. split; [exact HD|].
  split; [|rewrite Hst; split; reflexivity].
  clear HP HF HD Hst. revert es acc st st1 EL.
  generalize (@nil error).
  induction entries as [|e rest IH]; intros errs0 es acc st st1; simpl.
  - unfold ret. intros H; injection H as <- _ _. constructor.
  - unfold bind.
    destruct (fetchEntry w (fetchEntryInfo w fuel) recurse e errs0 st)
      as [[[e' errs1] st2] | p | ] eqn:EE; try discriminate.
    destruct (fetchLoop w (fetchEntryInfo w fuel) recurse rest errs1 st2)
      as [[[rest' errs2] st3] | p | ] eqn:EL; try discriminate.
    unfold ret. intros H; injection H as <- _ _.
    constructor; [|eapply IH; exact EL].
    apply fetchEntry_shape in EE. destruct EE as (_ & HF & _ & fi & Hfi & _).
    unfold hasInfo. rewrite HF, Hfi. discriminate.
Qed.

Lemma fetchEntryInfo_keeps_entries_witness :
  exists entries' st',
    fetchEntryInfo Sample.world 2 (rootsOf Sample.world ["d"; "f"]) false initial
    = Returns ((entries', []), st') /\
    (map path entries' = map path (rootsOf Sample.world ["d"; "f"]) /\
     map fileInfo entries' = map fileInfo (rootsOf Sample.world ["d"; "f"]) /\
     map directRequest entries' = map directRequest (rootsOf Sample.world ["d"; "f"]) /\
     Forall hasInfo entries' /\
     written st' = written initial /\ stderr st' = stderr initial).
Proof.
  do 2 eexists. split.
  - vm_compute. reflexivity.
  - eapply (fetchEntryInfo_keeps_entries Sample.world 2 (rootsOf Sample.world ["d"; "f"])
                                         _ false initial).
    vm_compute. reflexivity.
Defined.

(** After [fetchEntryInfo] has returned on entries that had no children,
    every directory of the tree, at every depth, holds one child per entry
    that [os.ReadDir] returned for its path, under the same names and in the
    same order (a failed read leaves whatever partial list it returned), and
    every other entry holds no children. *)
Theorem fetchEntryInfo_children_as_read
        (w : World) (fuel : nat) (entries entries' : list entryInfo) (recurse : bool)
        (st st' : state) (errs : list error) :
  Forall fresh entries ->
  fetchEntryInfo w fuel entries recurse st = Returns ((entries', errs), st') ->
  Forall (everywhere (childrenAsRead w)) entries'.
Proof.
  intros Hfresh Hfetch.
  apply (fetchEntryInfo_shape w fuel _ _ _ _ _ _ Hfetch Hfresh).
Qed.

Lemma fetchEntryInfo_children_as_read_witness :
  exists entries' st',
    fetchEntryInfo Sample.world 3 (rootsOf Sample.world ["."; "f"]) false initial
    = Returns ((entries', []), st') /\
    Forall (everywhere (childrenAsRead Sample.world)) entries'.
Proof.
  do 2 eexists. split.
  - vm_compute. reflexivity.
  - eapply (fetchEntryInfo_children_as_read Sample.world 3
              (rootsOf Sample.world ["."; "f"]) _ false initial).
    + repeat constructor.
    + vm_compute. reflexivity.
Defined.

(** ** Account lookups *)

Section Lookups.

Variable w : World.
Variable self : list entryInfo -> bool -> M (list entryInfo * list error).

Lemma fetchEntry_plain (recurse : bool) (e : entryInfo) (errs : list error) (st : state) :
  isPlain e ->
  exists e' errs',
    fetchEntry w self recurse e errs st
    = Returns ((e', errs'), called st (lookups (withStat e))).
Proof.
  intros (fi & Hfi & Hdir).
  assert (Hstat : fetchStat e st = Returns (withStat e, st)).
  { unfold fetchStat, withStat, bind, lift, promoted, ret. rewrite Hfi.
    destruct (Sys fi); reflexivity. }
  assert (Hfi1 : fileInfo (withStat e) = Some fi).
  { unfold withStat. rewrite Hfi. destruct (Sys fi); exact Hfi. }
  unfold fetchEntry. unfold bind at 1. rewrite Hstat.
  set (e1 := withStat e) in *. unfold lookups.
  unfold bind at 1. unfold fetchUser.
  destruct (uID e1 =? -1) eqn:Eu.
  - unfold ret at 1. unfold bind at 1. unfold fetchGroup.
    destruct (gID e1 =? -1) eqn:Eg.
    + unfold ret at 1. unfold fetchDir, bind, lift, promoted, ret.
      rewrite Hfi1, Hdir. do 2 eexists. rewrite called_nothing. reflexivity.
    + unfold bind at 1, emit at 1.
      destruct (LookupGroupId w (GoInt.Itoa (gID e1))) as [groupInfo err].
      unfold ret at 1. unfold fetchDir, bind, lift, promoted, ret.
      cbn [fileInfo setGroup]. rewrite Hfi1, Hdir. do 2 eexists. reflexivity.
  - unfold bind at 1, emit at 1.
    destruct (LookupId w (GoInt.Itoa (uID e1))) as [userInfo err].
    unfold ret at 1. unfold bind at 1. unfold fetchGroup.
    cbn [gID setUser].
    destruct (gID e1 =? -1) eqn:Eg.
    + unfold ret at 1. unfold fetchDir, bind, lift, promoted, ret.
      cbn [fileInfo setUser]. rewrite Hfi1, Hdir. do 2 eexists.
      unfold called. cbn [calls written stderr]. rewrite app_nil_r. reflexivity.
    + unfold bind at 1, emit at 1.
      destruct (LookupGroupId w (GoInt.Itoa (gID e1))) as [groupInfo err2].
      unfold ret at 1. unfold fetchDir, bind, lift, promoted, ret.
      cbn [fileInfo setUser setGroup]. rewrite Hfi1, Hdir. do 2 eexists.
      unfold called. cbn [calls written stderr]. rewrite <- app_assoc. reflexivity.
Qed.

Lemma fetchLoop_plain (recurse : bool) (entries : list entryInfo) :
  Forall isPlain entries ->
  forall errs st,
  exists entries' errs',
    fetchLoop w self recurse entries errs st
    = Returns ((entries', errs'),
               called st (flat_map (fun e => lookups (withStat e)) entries)).
Proof.
  induction 1 as [|e rest He Hrest IH]; intros errs st; cbn [fetchLoop flat_map].
  - do 2 eexists. unfold ret. rewrite called_nothing. reflexivity.
  - destruct (fetchEntry_plain recurse e errs st He) as (e' & errs1 & HE).
    unfold bind at 1. rewrite HE.
    destruct (IH errs1 (called st (lookups (withStat e)))) as (rest' & errs2 & HL).
    unfold bind at 1. rewrite HL. unfold ret. rewrite called_called.
    do 2 eexists. reflexivity.
Qed.

End Lookups.

(** On entries that are not directories, [fetchEntryInfo] returns without
    descending, and the only calls it makes are the account lookups: for each
    entry in turn, one [user.LookupId] when its uid is known and one
    [user.LookupGroupId] when its gid is known.  Nothing is remembered from
    one entry to the next: an id shared by several entries is looked up once
    per entry. *)
Theorem fetchEntryInfo_lookups_per_entry
        (w : World) (n : nat) (entries : list entryInfo) (recurse : bool) (st : state) :
  Forall isPlain entries ->
  exists entries',
    fetchEntryInfo w (S n) entries recurse st
    = Returns ((entries', []),
               called st (flat_map (fun e => lookups (withStat e)) entries)).
Proof.
  intros Hplain. cbn [fetchEntryInfo].
  destruct (fetchLoop_plain w (fetchEntryInfo w n) recurse entries Hplain [] st)
    as (entries' & errs' & HL).
  unfold bind. rewrite HL. unfold ret. eexists. reflexivity.
Qed.

Lemma fetchEntryInfo_lookups_per_entry_witness :
  exists entries',
    fetchEntryInfo Sample.world 1
                   [Sample.root "f" (Sample.fileOf "f" 0);
                    Sample.root "apple" (Sample.fileOf "apple" 0)] false initial
    = Returns ((entries', []),
               called initial
                      (flat_map (fun e => lookups (withStat e))
                                [Sample.root "f" (Sample.fileOf "f" 0);
                                 Sample.root "apple" (Sample.fileOf "apple" 0)])).
Proof.
  apply (fetchEntryInfo_lookups_per_entry Sample.world 0).
  repeat constructor; eexists; split; reflexivity.
Defined.

Example lookups_repeat :
  flat_map (fun e => lookups (withStat e))
           [Sample.root "f" (Sample.fileOf "f" 0);
            Sample.root "apple" (Sample.fileOf "apple" 0)]
  = [EvLookupId "0"; EvLookupGroupId "0"; EvLookupId "0"; EvLookupGroupId "0"].
Proof. reflexivity. Qed.

(** ** A walk that does not end *)

Lemma fetchChildren_In (dirEntries : list DirEntry) (d : DirEntry) :
  forall errs st subs errs' st',
    fetchChildren dirEntries errs st = Returns ((subs, errs'), st') ->
    In d dirEntries ->
    In (newEntryInfo (deName d) (fst (deInfo d))) subs.
Proof.
  induction dirEntries as [|x rest IH]; intros errs st subs errs' st'; simpl;
    [intros _ []|].
  unfold bind, emit. destruct (deInfo x) as [dirInfo err] eqn:Ex.
  destruct (fetchChildren rest (appendErr errs err) _)
    as [[[subs0 errs0] st0] | p | ] eqn:E; try discriminate.
  unfold ret. intros H; injection H as <- _ _.
  intros [-> | Hin].
  - left. rewrite Ex. reflexivity.
  - right. eapply IH; [exact E | exact Hin].
Qed.

Lemma fetchLoop_each (w : World)
      (self : list entryInfo -> bool -> M (list entryInfo * list error)) (recurse : bool)
      (entries : list entryInfo) (e : entryInfo) :
  forall errs st res,
    fetchLoop w self recurse entries errs st = Returns res ->
    In e entries ->
    exists errs0 st0 res0, fetchEntry w self recurse e errs0 st0 = Returns res0.
Proof.
  induction entries as [|x rest IH]; intros errs st res; simpl; [intros _ []|].
  unfold bind.
  destruct (fetchEntry w self recurse x errs st)
    as [[[x' errs1] st1] | p | ] eqn:EE; try discriminate.
  destruct (fetchLoop w self recurse rest errs1 st1) as [res1 | p | ] eqn:EL;
    try discriminate.
  intros _ [-> | Hin].
  - do 3 eexists. exact EE.
  - eapply IH; [exact EL | exact Hin].
Qed.

Lemma fetchEntryInfo_deeper (w : World) (p : string) (fuel : nat) :
  selfNamed w p ->
  forall entries recurse st res,
    Exists (directoryAt p) entries ->
    fetchEntryInfo w fuel entries recurse st <> Returns res.
Proof.
  intros (d & fid & Hd & Hname & Hinfo & Hisdir).
  induction fuel as [|fuel IH]; intros entries recurse st res Hex; [discriminate|].
  cbn [fetchEntryInfo]. unfold bind.
  destruct (fetchLoop w (fetchEntryInfo w fuel) recurse entries [] st)
    as [[[es acc] st1] | q | ] eqn:EL; try discriminate.
  exfalso.
  apply Exists_exists in Hex. destruct Hex as (e & Hin & Hpath & fi & Hfi & Hdir).
  destruct (fetchLoop_each _ _ _ _ e _ _ _ EL Hin) as (errs0 & st0 & [[e' errs1] st2] & HE).
  apply fetchEntry_shape in HE. destruct HE as (_ & _ & _ & fi' & Hfi' & Hsub).
  assert (fi' = fi) by congruence. subst fi'. rewrite Hdir, Hpath in Hsub.
  destruct Hsub as (subs & errsA & stA & errsB & stB & returned & stC & HC & HS).
  pose proof (fetchChildren_In _ d _ _ _ _ _ HC Hd) as Hchild.
  apply (IH subs recurse stB (subEntries e', returned, stC)); [|exact HS].
  apply Exists_exists. eexists. split; [exact Hchild|].
  split; [exact Hname|]. exists fid. split; [exact Hinfo | exact Hisdir].
Qed.

(** The walk descends into a child directory under the child's bare name.
    If reading [p] yields a directory that is itself called [p] (a directory
    [p] inside the directory [p] of the working directory), the walk over
    any entries that include the directory [p] never returns, whatever the
    recursion flag: no depth is enough. *)
Theorem fetchEntryInfo_never_returns
        (w : World) (p : string) (fuel : nat) (entries : list entryInfo) (recurse : bool)
        (st : state) :
  selfNamed w p ->
  Exists (directoryAt p) entries ->
  ~ returned (fetchEntryInfo w fuel entries recurse st).
Proof.
  intros Hself Hex Hret.
  destruct (fetchEntryInfo w fuel entries recurse st) as [res | q | ] eqn:E;
    try contradiction.
  exact (fetchEntryInfo_deeper w p fuel Hself entries recurse st res Hex E).
Qed.

Lemma fetchEntryInfo_never_returns_witness :
  ~ returned (fetchEntryInfo Sample.world 5 [Sample.root "a" (Sample.dirOf "a")]
                             false initial).
Proof.
  apply (fetchEntryInfo_never_returns Sample.world "a" 5).
  - exists (Sample.child (Sample.dirOf "a")), (Sample.dirOf "a").
    split; [left; reflexivity|]. repeat split.
  - constructor. split; [reflexivity|].
    exists (Sample.dirOf "a"). split; reflexivity.
Defined.

(** ** Order within a directory *)

Section Ordered.

Variable w : World.
Variable config : Config.
Variable sortSlice : forall A : Type, (A -> A -> bool) -> list A -> list A.
Hypothesis sort_ok : sortContract sortSlice.

Lemma sorted_names (names : list string) :
  Permutation names (sortSlice string (lessLower w) names) /\
  sortedBy (lessLower w) (sortSlice string (lessLower w) names).
Proof.
  destruct (sort_ok string (lessLower w) names) as [Hperm Hsorted].
  split; [exact Hperm | exact (Hsorted (lessLower_strictWeakOrder w))].
Qed.

Lemma sorted_entries (entries : list entryInfo) :
  Permutation entries (sortSlice entryInfo (lessLowerPath w) entries) /\
  sortedBy (lessLowerPath w) (sortSlice entryInfo (lessLowerPath w) entries).
Proof.
  destruct (sort_ok entryInfo (lessLowerPath w) entries) as [Hperm Hsorted].
  split; [exact Hperm | exact (Hsorted (lessLowerPath_strictWeakOrder w))].
Qed.

End Ordered.

(** In short mode the section of a directory never fails.  After the header
    (present when there is more than one root) it is one line holding the
    display name of every child exactly once, separated by three tabs and
    ordered so that no name, lower-cased by [strings.ToLower], is smaller
    (as a byte string) than one before it; a
    directory without children gives no line at all.  The children
    themselves are left in the order of the directory read. *)
Theorem printOther_short_sorted
        (w : World) (config : Config)
        (sortSlice : forall A : Type, (A -> A -> bool) -> list A -> list A)
        (count : nat) (entry : entryInfo) (st : state) :
  sortContract sortSlice ->
  formatLongList config = false ->
  exists names,
    Permutation (map SafeName (subEntries entry)) names /\
    sortedBy (lessLower w) names /\
    printOther w config sortSlice count entry st
    = Returns (subEntries entry,
               wrote st ((if (1 <? count)%nat then headerLine entry else "") ++
                         match names with
                         | [] => ""
                         | _ => Join names (tab ++ tab ++ tab) ++ newline
                         end)).
Proof.
  intros Hsort Hshort.
  exists (sortSlice string (lessLower w) (map SafeName (subEntries entry))).
  destruct (sorted_names w sortSlice Hsort (map SafeName (subEntries entry)))
    as [Hperm Hsorted].
  split; [exact Hperm|]. split; [exact Hsorted|].
  rewrite printOther_section. unfold sectionText, bodyText, subsAfter. rewrite Hshort.
  destruct (subEntries entry) as [|c cs] eqn:Es; cbn [obind].
  - cbn [map] in Hperm |- *. apply Permutation_nil in Hperm. rewrite Hperm. reflexivity.
  - destruct (sortSlice string (lessLower w) (map SafeName (c :: cs))) as [|x xs] eqn:Esort.
    + apply Permutation_sym, Permutation_nil in Hperm. discriminate.
    + reflexivity.
Qed.

Lemma printOther_short_sorted_witness :
  exists names,
    Permutation (map SafeName (subEntries (directory "d" [plainFile "b" 8; plainFile "A" 8])))
                names /\
    sortedBy (lessLower Sample.world) names /\
    printOther Sample.world Sample.short insertionSort 2
               (directory "d" [plainFile "b" 8; plainFile "A" 8]) initial
    = Returns (subEntries (directory "d" [plainFile "b" 8; plainFile "A" 8]),
               wrote initial
                     ((if (1 <? 2)%nat
                       then headerLine (directory "d" [plainFile "b" 8; plainFile "A" 8])
                       else "") ++
                      match names with
                      | [] => ""
                      | _ => Join names (tab ++ tab ++ tab) ++ newline
                      end)).
Proof.
  apply (printOther_short_sorted Sample.world Sample.short insertionSort 2).
  - exact insertionSort_contract.
  - reflexivity.
Defined.

(** In long mode, when the section of a directory is printed, its children
    have been rearranged in place: the slice holds the same entries, ordered
    so that no path, lower-cased by [strings.ToLower], is smaller (as a byte
    string) than one before it; the section
    is the header (when there is more than one root), the [total] line and
    one row per child in that order. *)
Theorem printOther_long_sorted
        (w : World) (config : Config)
        (sortSlice : forall A : Type, (A -> A -> bool) -> list A -> list A)
        (count : nat) (entry : entryInfo) (st st' : state) (subs : list entryInfo) :
  sortContract sortSlice ->
  formatLongList config = true ->
  printOther w config sortSlice count entry st = Returns (subs, st') ->
  Permutation (subEntries entry) subs /\
  sortedBy (lessLowerPath w) subs /\
  exists total rows,
    blocksForSize entry (blockSize config) = Returns total /\
    rowsText w subs = Returns rows /\
    st' = wrote st ((if (1 <? count)%nat then headerLine entry else "") ++
                    "total " ++ GoInt.Itoa total ++ newline ++ rows).
Proof.
  intros Hsort Hlong.
  rewrite printOther_section. unfold sectionText, bodyText, subsAfter. rewrite Hlong.
  destruct (blocksForSize entry (blockSize config)) as [total | p | ]; cbn [obind];
    try discriminate.
  destruct (rowsText w (sortSlice entryInfo (lessLowerPath w) (subEntries entry)))
    as [rows | p | ] eqn:Erows; cbn [obind]; try discriminate.
  intros H; injection H as <- <-.
  destruct (sorted_entries w sortSlice Hsort (subEntries entry)) as [Hperm Hsorted].
  split; [exact Hperm|]. split; [exact Hsorted|].
  exists total, rows. split; [reflexivity|]. split; [exact Erows | reflexivity].
Qed.

Lemma printOther_long_sorted_witness :
  exists subs st',
    printOther Sample.world Sample.long insertionSort 1
               (directory "d" [plainFile "b" 8; plainFile "A" 8]) initial
    = Returns (subs, st') /\
    (Permutation (subEntries (directory "d" [plainFile "b" 8; plainFile "A" 8])) subs /\
     sortedBy (lessLowerPath Sample.world) subs /\
     exists total rows,
       blocksForSize (directory "d" [plainFile "b" 8; plainFile "A" 8])
                     (blockSize Sample.long) = Returns total /\
       rowsText Sample.world subs = Returns rows /\
       st' = wrote initial
                   ((if (1 <? 1)%nat
                     then headerLine (directory "d" [plainFile "b" 8; plainFile "A" 8])
                     else "") ++
                    "total " ++ GoInt.Itoa total ++ newline ++ rows)).
Proof.
  do 2 eexists. split.
  - vm_compute. reflexivity.
  - eapply (printOther_long_sorted Sample.world Sample.long insertionSort 1
                                   (directory "d" [plainFile "b" 8; plainFile "A" 8])
                                   initial).
    + exact insertionSort_contract.
    + reflexivity.
    + vm_compute. reflexivity.
Defined.

(** The comparison used for the children of a directory leaves two names
    unordered, neither less than the other, exactly when [strings.ToLower]
    gives the same string for both. *)
Theorem lessLower_tie_iff (w : World) (a b : string) :
  (lessLower w a b = false /\ lessLower w b a = false) <-> ToLower w a = ToLower w b.
Proof.
  unfold lessLower. split.
  - intros [Hab Hba]. destruct (ltb_false_cases _ _ Hab) as [Heq | Hlt];
      [exact Heq | congruence].
  - intros ->. split; unfold String.ltb;
      destruct (String.compare (ToLower w b) (ToLower w b)) eqn:E; try reflexivity;
      pose proof (String.compare_antisym (ToLower w b) (ToLower w b)) as Ha;
      rewrite E in Ha; discriminate.
Qed.

Example lessLower_tie :
  lessLower Sample.world "README" "readme" = false /\
  lessLower Sample.world "readme" "README" = false.
Proof. split; reflexivity. Qed.

(** ** Entries without platform metadata *)



(** ** Command-line paths *)

(** [main] stats every command-line path once, in order, and goes on after a
    failure.  It keeps one root per path for which [os.Stat] gave file
    information, in the order of the paths, flagged as a direct request and
    without user, group or children; the errors are collected in the same
    order. *)
Theorem statPaths_continues (w : World) (paths : list string) (st : state) :
  exists roots,
    statPaths w paths [] [] st
    = Returns ((roots, statErrors w paths), called st (map EvStat paths)) /\
    map path roots
    = filter (fun p => match fst (osStat w p) with Some _ => true | None => false end) paths /\
    Forall (fun e => directRequest e = true /\ hasInfo e /\ fresh e) roots.
Proof.
  exists (rootsOf w paths). split; [apply statPaths_result|]. split.
  - induction paths as [|p rest IH]; [reflexivity|].
    cbn [rootsOf flat_map filter]. fold (rootsOf w rest).
    destruct (fst (osStat w p)); cbn [app map]; rewrite IH; reflexivity.
  - induction paths as [|p rest IH]; [constructor|].
    cbn [rootsOf flat_map]. fold (rootsOf w rest).
    destruct (fst (osStat w p)); cbn [app]; [constructor|]; try exact IH.
    split; [reflexivity|]. split; [discriminate | repeat split].
Qed.

(** ** When [ls] returns *)

Lemma everywhere_printable (w : World) (e : entryInfo) :
  everywhere (ownerGroupColumns w) e -> printable e.
Proof.
  intros He. inversion He as [? Hcols Hsubs]; subst. split.
  - destruct Hcols as (fi & Hfi & _). unfold hasInfo. rewrite Hfi. discriminate.
  - eapply Forall_impl; [|exact Hsubs].
    intros c Hc. inversion Hc as [? Hccols _]; subst.
    destruct Hccols as (fi & Hfi & _). unfold hasInfo. rewrite Hfi. discriminate.
Qed.

Section Returns.

Variable w : World.
Variable config : Config.
Variable sortSlice : forall A : Type, (A -> A -> bool) -> list A -> list A.
Hypothesis sort_ok : sortContract sortSlice.
Hypothesis mode_ok : formatLongList config = false \/ 512 <= blockSize config.

Lemma bodyText_returns (e : entryInfo) :
  printable e -> exists body, bodyText w config sortSlice e = Returns body.
Proof.
  intros [He Hsubs]. unfold bodyText.
  destruct (formatLongList config) eqn:Emode.
  - destruct mode_ok as [Hshort | Hbs]; [discriminate|].
    unfold hasInfo in He. destruct (fileInfo e) as [fi|] eqn:Efi; [|contradiction].
    rewrite (blocksForSize_udiv e fi _ Efi).
    rewrite udiv_returns.
    + cbn [obind].
      destruct (rowsText_returns w (sortSlice entryInfo (lessLowerPath w) (subEntries e)))
        as [rows Hrows].
      { destruct (sort_ok entryInfo (lessLowerPath w) (subEntries e)) as [Hperm _].
        apply (Permutation_Forall Hperm). exact Hsubs. }
      rewrite Hrows. cbn [obind]. eexists. reflexivity.
    + pose proof (factor_zero_iff (blockSize config) ltac:(lia)) as Hz.
      intros H. apply Hz in H. lia.
  - destruct (subEntries e); eexists; reflexivity.
Qed.

Lemma sectionTexts_returns (withHeader : bool) (others : list entryInfo) :
  Forall printable others ->
  exists ss, sectionTexts w config sortSlice withHeader others = Returns ss.
Proof.
  induction 1 as [|e rest He Hrest [ss IH]]; cbn [sectionTexts].
  - eexists. reflexivity.
  - unfold sectionText. destruct (bodyText_returns e He) as [body Hbody].
    rewrite Hbody. cbn [obind]. rewrite IH. cbn [obind]. eexists. reflexivity.
Qed.

Lemma listingText_returns (entries : list entryInfo) :
  Forall printable entries ->
  exists text, listingText w config sortSlice entries = Returns text.
Proof.
  intros Hall. unfold listingText.
  assert (Hinfo : Forall hasInfo entries).
  { eapply Forall_impl; [|exact Hall]. intros e [He _]. exact He. }
  assert (Hsplit : Forall splittable entries).
  { eapply Forall_impl; [|exact Hinfo]. intros e He _. exact He. }
  rewrite (splitEntries_from entries Hsplit). cbn [obind app].
  assert (Hdirect : exists files,
             directText w config sortSlice (filter directFile entries) = Returns files).
  { unfold directText. destruct (formatLongList config).
    - apply rowsText_returns. apply Forall_forall. intros e He.
      apply filter_In in He. rewrite Forall_forall in Hinfo. apply Hinfo. apply He.
    - destruct (filter directFile entries); eexists; reflexivity. }
  destruct Hdirect as [files Hfiles]. rewrite Hfiles. cbn [obind].
  destruct (sectionTexts_returns (1 <? List.length entries)%nat
                                 (filter (fun e => negb (directFile e)) entries))
    as [ss Hss].
  { apply Forall_forall. intros e He. apply filter_In in He.
    rewrite Forall_forall in Hall. apply Hall. apply He. }
  rewrite Hss. cbn [obind]. eexists. reflexivity.
Qed.

Lemma main_after_walk (fuel : nat) (paths : list string) (st0 st1 : state)
      (entries : list entryInfo) (errs : list error) (text : string) :
  fetchEntryInfo w fuel (rootsOf w paths) false (called st0 (map EvStat paths))
  = Returns ((entries, errs), st1) ->
  listingText w config sortSlice entries = Returns text ->
  returned (main w config sortSlice fuel paths st0).
Proof.
  intros EF Htext.
  unfold main. unfold bind at 1. rewrite statPaths_result. cbn [app].
  unfold bind at 1. rewrite EF.
  destruct fuel as [|n]; [discriminate EF|].
  unfold bind at 1. rewrite printErrors_if_any.
  unfold bind at 1. rewrite printEntries_listing, Htext. cbn [obind].
  unfold bind at 1. unfold flushWriter.
  destruct (Flush w _) as [err|].
  - unfold bind at 1. unfold bind at 1. rewrite printErrors_complains. unfold ret at 1.
    rewrite exit_code. exact I.
  - unfold bind at 1. unfold ret at 1. rewrite exit_code. exact I.
Qed.

End Returns.

(** Once the walk has returned, printing cannot fail in short mode, nor in
    long mode when the block size is at least 512: [ls] then returns with an
    exit status.  The only failure left to the printing pass is the division
    by zero of a block size below 512. *)
Theorem main_returns_after_walk
        (w : World) (config : Config)
        (sortSlice : forall A : Type, (A -> A -> bool) -> list A -> list A)
        (fuel : nat) (paths : list string) (st0 : state) :
  sortContract sortSlice ->
  formatLongList config = false \/ 512 <= blockSize config ->
  returned (fetchEntryInfo w fuel (rootsOf w paths) false (called st0 (map EvStat paths))) ->
  returned (main w config sortSlice fuel paths st0).
Proof.
  intros Hsort Hmode Hwalk.
  destruct (fetchEntryInfo w fuel (rootsOf w paths) false (called st0 (map EvStat paths)))
    as [[[entries errs] st1] | p | ] eqn:EF; try contradiction.
  pose proof (fetchEntryInfo_columns w fuel _ _ _ _ _ _ EF (rootsOf_unfetched w paths))
    as Hcols.
  assert (Hall : Forall printable entries).
  { eapply Forall_impl; [|exact Hcols]. intros e. apply everywhere_printable. }
  destruct (listingText_returns w config sortSlice Hsort Hmode entries Hall) as [text Htext].
  exact (main_after_walk w config sortSlice fuel paths st0 st1 entries errs text EF Htext).
Qed.

Lemma main_returns_after_walk_witness :
  returned (main Sample.world Sample.long insertionSort 2 ["d"; "f"; "missing"] initial).
Proof.
  apply (main_returns_after_walk Sample.world Sample.long insertionSort 2
                                 ["d"; "f"; "missing"] initial).
  - exact insertionSort_contract.
  - right. simpl. lia.
  - vm_compute. exact I.
Defined.
